(** * Primoco to Actual migrator: a shallow embedding of the importer

    The repository holds two revisions of the importer script.  The newer
    one (with generated posting ids, mirrored transfer postings and
    categories told apart by kind) is embedded in the modules [Loader],
    [Categories] and [Reconciler], on top of [Number], [DateFns], [Sha256]
    and [Json] for what the script calls; the posting stage of
    [importer.js] is embedded in [ImporterJs].

    Conventions of the embedding.
    - A JavaScript string is the list of bytes of its UTF-8 encoding
      ([string] of the Standard Library).  The hash of the row identity
      consumes exactly these bytes.
    - [None] stands for [undefined], [null] or an absent property.
    - A JavaScript [Map] is an association list in insertion order.
    - The console and the remote ledger are traces of events.
    - [uuidv4()], the configuration flags, the clock and the answers of the
      remote ledger are explicit arguments. *)

From Stdlib Require Import ZArith List String Ascii Bool Arith Lia.
From Stdlib Require Import DecimalString DecimalNat.
From Stdlib Require Import SpecFloat.
Import ListNotations.
Local Open Scope string_scope.
Local Open Scope nat_scope.
Local Open Scope list_scope.

(* ================================================================== *)
(** * Part I: definitions *)
(* ================================================================== *)

(** ** JavaScript values used by the script *)

Module Js.

(** [!s] on a string: only the empty string is falsy. *)
Definition truthy (s : string) : bool := negb (String.eqb s "").

(** [!x] where [x] is a string or [undefined]: the value when it is
    truthy. *)
Definition truthy_opt (o : option string) : option string :=
  match o with
  | Some s => if truthy s then Some s else None
  | None => None
  end.

(** [x || null]. *)
Definition or_null (o : option string) : option string := truthy_opt o.

(** The numbers the script stores in [amount]: results of [Math.round],
    hence an integer, [NaN] or an infinity.  The sign of zero is not
    tracked ([0 === -0], and both serialise as [0]). *)
Inductive num :=
| NaN
| Inf (negative : bool)
| Int (z : Z).

(** [x * -1]. *)
Definition neg (x : num) : num :=
  match x with
  | NaN => NaN
  | Inf s => Inf (negb s)
  | Int z => Int (- z)
  end.

(** [x + y]. *)
Definition add (x y : num) : num :=
  match x, y with
  | NaN, _ | _, NaN => NaN
  | Inf s, Inf s' => if Bool.eqb s s' then Inf s else NaN
  | Inf s, Int _ | Int _, Inf s => Inf s
  | Int a, Int b => Int (a + b)
  end.

Definition is_finite (x : num) : bool :=
  match x with Int _ => true | _ => false end.

(** Keys of a [Map]: compared with [===]. *)
Class Key (K : Type) := key_eqb : K -> K -> bool.

#[global] Instance string_key : Key string := String.eqb.

Definition opt_string_eqb (a b : option string) : bool :=
  match a, b with
  | Some x, Some y => String.eqb x y
  | None, None => true
  | _, _ => false
  end.

#[global] Instance opt_string_key : Key (option string) := opt_string_eqb.

(** [Map]: insertion-ordered, one entry per key. *)
Section Map.
Context {K V : Type} `{Key K}.

Definition map := list (K * V).

Fixpoint map_get (k : K) (m : map) : option V :=
  match m with
  | [] => None
  | (k', v) :: m' => if key_eqb k k' then Some v else map_get k m'
  end.

Definition map_has (k : K) (m : map) : bool :=
  match map_get k m with Some _ => true | None => false end.

(** [m.set(k, v)]: an existing key keeps its place. *)
Fixpoint map_set (k : K) (v : V) (m : map) : map :=
  match m with
  | [] => [(k, v)]
  | (k', v') :: m' =>
      if key_eqb k k' then (k, v) :: m' else (k', v') :: map_set k v m'
  end.

(** [new Map(pairs)]. *)
Definition map_of (pairs : list (K * V)) : map :=
  fold_left (fun m kv => map_set (fst kv) (snd kv) m) pairs [].
End Map.

Section MapOfArrays.
Context {K A : Type} `{Key K}.

(** [if (!m.has(k)) m.set(k, [])]. *)
Definition map_ensure (k : K) (m : list (K * list A)) : list (K * list A) :=
  if map_has k m then m else map_set k [] m.

(** [m.get(k).push(x)].  Every caller ensures the key first; on an
    absent key JavaScript raises a TypeError, and the map is left as
    it is here. *)
Definition map_push (k : K) (x : A) (m : list (K * list A)) : list (K * list A) :=
  match map_get k m with
  | Some l => map_set k (l ++ [x]) m
  | None => m
  end.

(** All elements stored under all keys. *)
Definition map_total (m : list (K * list A)) : nat :=
  list_sum (List.map (fun kv => List.length (snd kv)) m).
End MapOfArrays.

(** [`${n}`] for a non-negative integer. *)
Definition string_of_nat (n : nat) : string :=
  NilEmpty.string_of_uint (Nat.to_uint n).

(** [a.slice(i, j)] for [0 <= i <= j]. *)
Definition slice {A} (i j : nat) (a : list A) : list A :=
  firstn (j - i) (skipn i a).

End Js.

(** ** Records shared by the stages *)

(** What [loadCSV] pushes on [transactions]. *)
Record Transaction := {
  t_date : string;
  t_amount : Js.num;
  t_category : string;
  t_payee_name : string;
  t_notes : string;
  t_type : string;
  t_acctName : string;
  t_imported_id : string
}.

(** The objects handed to the ledger ([transactionData] and
    [mirroredTransaction]). *)
Record Posting := {
  p_id : option string;
  p_date : string;
  p_amount : Js.num;
  p_category : option string;
  p_payee_name : option string;
  p_payee : option string;
  p_notes : string;
  p_imported_id : string;
  p_cleared : bool;
  p_transfer_id : option string
}.

(** An entry of [api.getPayees()]. *)
Record Payee := {
  payee_id : string;
  payee_transfer_acct : option string
}.

(** Calls to the remote ledger, in the order they are issued. *)
Inductive ApiCall :=
| CreateCategoryGroup (name : string) (is_income : bool)
| CreateCategory (name : string) (group_id : string) (is_income : bool)
| ImportTransactions (acctId : string) (batch : list Posting)
| Sync.

(** Lines written to the console, as far as the properties below speak of
    them; the text is abstracted to its kind and the values it
    interpolates. *)
Inductive LogLine :=
| WarnInvalidDate (dateString : string)
| WarnSkippingFuture (dateString : string)
| WarnAccountNotFound (t : Transaction)
| WarnTransferToExpense (t : Transaction)
| WarnTransferSkipped (t : Transaction)
| WarnNoTransferPayee (t : Transaction)
| LogCreatingImportedGroup
| LogCategoryExists (name : string) (is_income : bool) (id : string)
| LogCategoryCreated (name : string) (is_income : bool) (id : string)
| LogImported (count : nat) (accountName : string).

(** ** Posting stage of the newer revision ([importTransactions]) *)

Module Reconciler.
Import Js.

Definition BATCH : nat := 1000.

Record Env := {
  MARK_CLEARED : bool;
  uuidv4 : nat -> string;          (* the n-th identifier generated *)
  payees : list Payee              (* api.getPayees() *)
}.

Definition payeesByAccount (env : Env) : map (K := option string) (V := string) :=
  map_of (List.map (fun p => (payee_transfer_acct p, payee_id p)) (payees env)).

Definition payee_of (env : Env) (acctId : string) : option string :=
  map_get (Some acctId) (payeesByAccount env).

Record State := {
  uuids : nat;                                   (* identifiers drawn so far *)
  transactionsByAccount : list (string * list Posting);
  console : list LogLine
}.

Definition initial : State :=
  {| uuids := 0; transactionsByAccount := []; console := [] |}.

Definition category_key (name kind : string) : string := (name ++ "-" ++ kind)%string.

(** One turn of [for (const transaction of transactions)].  The result
    carries the transaction object as the turn leaves it, since one
    branch assigns to its fields. *)
Definition prepare (env : Env) (accountIdMap categoryIdMap : list (string * string))
    (st : State) (transaction : Transaction) : Transaction * State :=
  let acctId := map_get (t_acctName transaction) accountIdMap in
  let categoryId :=
    or_null (map_get (category_key (t_category transaction) (t_type transaction))
                     categoryIdMap) in
  let transactionId := uuidv4 env (uuids st) in
  let n1 := S (uuids st) in
  match truthy_opt acctId with
  | None =>
      (transaction,
       {| uuids := n1;
          transactionsByAccount := transactionsByAccount st;
          console := console st ++ [WarnAccountNotFound transaction] |})
  | Some acctId =>
      let byAccount := map_ensure acctId (transactionsByAccount st) in
      let transactionData :=
        {| p_id := Some transactionId;
           p_date := t_date transaction;
           p_amount := t_amount transaction;
           p_category := categoryId;
           p_payee_name := Some (t_payee_name transaction);
           p_payee := None;
           p_notes := t_notes transaction;
           p_imported_id := t_imported_id transaction;
           p_cleared := MARK_CLEARED env;
           p_transfer_id := None |} in
      if String.eqb (t_type transaction) "transfer" then
        match truthy_opt (map_get (t_payee_name transaction) accountIdMap) with
        | None =>
            (* the two assignments go to [transaction], after
               [transactionData] was built from it *)
            let transaction' :=
              {| t_date := t_date transaction;
                 t_amount := neg (t_amount transaction);
                 t_category := t_category transaction;
                 t_payee_name := t_payee_name transaction;
                 t_notes := t_notes transaction;
                 t_type := "expense";
                 t_acctName := t_acctName transaction;
                 t_imported_id := t_imported_id transaction |} in
            (transaction',
             {| uuids := n1;
                transactionsByAccount := map_push acctId transactionData byAccount;
                console := console st ++ [WarnTransferToExpense transaction] |})
        | Some counterAcctId =>
            match truthy_opt (payee_of env counterAcctId) with
            | None =>
                (transaction,
                 {| uuids := n1;
                    transactionsByAccount := byAccount;
                    console := console st ++ [WarnNoTransferPayee transaction] |})
            | Some transferPayeeId =>
                let mirroredTransactionId := uuidv4 env n1 in
                let transactionData' :=
                  {| p_id := Some transactionId;
                     p_date := t_date transaction;
                     p_amount := neg (t_amount transaction);
                     p_category := None;
                     p_payee_name := None;
                     p_payee := Some transferPayeeId;
                     p_notes := t_notes transaction;
                     p_imported_id := t_imported_id transaction;
                     p_cleared := MARK_CLEARED env;
                     p_transfer_id := Some mirroredTransactionId |} in
                let mirroredTransaction :=
                  {| p_id := Some mirroredTransactionId;
                     p_date := t_date transaction;
                     p_amount := t_amount transaction;
                     p_category := None;
                     p_payee_name := None;
                     p_payee := payee_of env acctId;
                     p_notes := t_notes transaction;
                     p_imported_id := t_imported_id transaction;
                     p_cleared := MARK_CLEARED env;
                     p_transfer_id := Some transactionId |} in
                let byAccount' := map_ensure counterAcctId byAccount in
                (transaction,
                 {| uuids := S n1;
                    transactionsByAccount :=
                      map_push counterAcctId mirroredTransaction
                        (map_push acctId transactionData' byAccount');
                    console := console st |})
            end
        end
      else
        (transaction,
         {| uuids := n1;
            transactionsByAccount := map_push acctId transactionData byAccount;
            console := console st |})
  end.

(** The whole preparation loop: the transactions as the loop leaves
    them, and the final state. *)
Fixpoint prepare_all (env : Env) (accountIdMap categoryIdMap : list (string * string))
    (st : State) (transactions : list Transaction) : list Transaction * State :=
  match transactions with
  | [] => ([], st)
  | t :: rest =>
      let '(t', st') := prepare env accountIdMap categoryIdMap st t in
      let '(rest', st'') := prepare_all env accountIdMap categoryIdMap st' rest in
      (t' :: rest', st'')
  end.

(** [for (let i = 0; i < a.length; i += 1000) a.slice(i, i + 1000)]:
    the batches in order.  [fuel] bounds the number of turns; the length
    of the array is always enough. *)
Fixpoint batches_from {A} (size fuel i : nat) (a : list A) : list (list A) :=
  match fuel with
  | 0 => []
  | S fuel' =>
      if i <? List.length a
      then slice i (i + size) a :: batches_from size fuel' (i + size) a
      else []
  end.

Definition batches {A} (a : list A) : list (list A) :=
  batches_from BATCH (List.length a) 0 a.

(** [[...accountIdMap.entries()].find(([name, id]) => id === acctId)[0]].
    The newer revision reads [[0]] of the result as it is, which raises a
    TypeError when no entry is found; every key of the grouping is the
    identifier of an entry (lemma [prepare_all_grouped]), so one is always
    found (lemma [account_name_found]). *)
Definition account_name (accountIdMap : list (string * string)) (acctId : string)
  : option string :=
  option_map fst (find (fun e => String.eqb (snd e) acctId) accountIdMap).

Definition display_name (accountIdMap : list (string * string)) (acctId : string) : string :=
  match account_name accountIdMap acctId with
  | Some name => if truthy name then name else ("Unknown (" ++ acctId ++ ")")%string
  | None => ("Unknown (" ++ acctId ++ ")")%string
  end.

(** What the delivery loop does for one batch: it counts the batch,
    synchronises and reports.  No call of this revision hands the batch
    to the ledger. *)
Definition deliver_batch (accountName : string) (batch : list Posting)
  : list ApiCall * list LogLine * nat :=
  match batch with
  | [] => ([], [], 0)
  | _ => ([Sync], [LogImported (List.length batch) accountName], List.length batch)
  end.

Definition merge3 (x y : list ApiCall * list LogLine * nat)
  : list ApiCall * list LogLine * nat :=
  let '(c1, l1, n1) := x in
  let '(c2, l2, n2) := y in
  (c1 ++ c2, l1 ++ l2, n1 + n2).

Definition deliver_account (accountIdMap : list (string * string))
    (entry : string * list Posting) : list ApiCall * list LogLine * nat :=
  let accountName := display_name accountIdMap (fst entry) in
  fold_right merge3 ([], [], 0)
    (List.map (deliver_batch accountName) (batches (snd entry))).

Definition deliver (accountIdMap : list (string * string))
    (byAccount : list (string * list Posting)) : list ApiCall * list LogLine * nat :=
  fold_right merge3 ([], [], 0) (List.map (deliver_account accountIdMap) byAccount).

Record Outcome := {
  out_transactions : list Transaction;   (* the argument array afterwards *)
  out_byAccount : list (string * list Posting);
  out_calls : list ApiCall;
  out_console : list LogLine;
  out_totalImported : nat
}.

Definition importTransactions (env : Env) (transactions : list Transaction)
    (accountIdMap categoryIdMap : list (string * string)) : Outcome :=
  let '(ts, st) := prepare_all env accountIdMap categoryIdMap initial transactions in
  let '(calls, lines, total) := deliver accountIdMap (transactionsByAccount st) in
  {| out_transactions := ts;
     out_byAccount := transactionsByAccount st;
     out_calls := calls;
     out_console := console st ++ lines;
     out_totalImported := total |}.

End Reconciler.

(** ** Posting stage of [importer.js] ([importTransactions]) *)

Module ImporterJs.
Import Js.

Definition prepare (env : Reconciler.Env)
    (accountIdMap categoryIdMap : list (string * string))
    (st : Reconciler.State) (transaction : Transaction) : Reconciler.State :=
  let acctId := map_get (t_acctName transaction) accountIdMap in
  let categoryId := or_null (map_get (t_category transaction) categoryIdMap) in
  match truthy_opt acctId with
  | None =>
      {| Reconciler.uuids := Reconciler.uuids st;
         Reconciler.transactionsByAccount := Reconciler.transactionsByAccount st;
         Reconciler.console :=
           Reconciler.console st ++ [WarnAccountNotFound transaction] |}
  | Some acctId =>
      let byAccount := map_ensure acctId (Reconciler.transactionsByAccount st) in
      let transactionData :=
        {| p_id := None;
           p_date := t_date transaction;
           p_amount := t_amount transaction;
           p_category := categoryId;
           p_payee_name := Some (t_payee_name transaction);
           p_payee := None;
           p_notes := t_notes transaction;
           p_imported_id := t_imported_id transaction;
           p_cleared := Reconciler.MARK_CLEARED env;
           p_transfer_id := None |} in
      if String.eqb (t_type transaction) "transfer" then
        match truthy_opt (map_get (t_payee_name transaction) accountIdMap) with
        | None =>
            {| Reconciler.uuids := Reconciler.uuids st;
               Reconciler.transactionsByAccount := byAccount;
               Reconciler.console :=
                 Reconciler.console st ++ [WarnTransferSkipped transaction] |}
        | Some counterAcctId =>
            match truthy_opt (Reconciler.payee_of env counterAcctId) with
            | None =>
                {| Reconciler.uuids := Reconciler.uuids st;
                   Reconciler.transactionsByAccount := byAccount;
                   Reconciler.console :=
                     Reconciler.console st ++ [WarnNoTransferPayee transaction] |}
            | Some transferPayeeId =>
                let transactionData' :=
                  {| p_id := None;
                     p_date := t_date transaction;
                     p_amount := neg (t_amount transaction);
                     p_category := None;
                     p_payee_name := None;
                     p_payee := Some transferPayeeId;
                     p_notes := t_notes transaction;
                     p_imported_id := t_imported_id transaction;
                     p_cleared := Reconciler.MARK_CLEARED env;
                     p_transfer_id := None |} in
                {| Reconciler.uuids := Reconciler.uuids st;
                   Reconciler.transactionsByAccount :=
                     map_push acctId transactionData' byAccount;
                   Reconciler.console := Reconciler.console st |}
            end
        end
      else
        {| Reconciler.uuids := Reconciler.uuids st;
           Reconciler.transactionsByAccount :=
             map_push acctId transactionData byAccount;
           Reconciler.console := Reconciler.console st |}
  end.

Definition prepare_all (env : Reconciler.Env)
    (accountIdMap categoryIdMap : list (string * string))
    (transactions : list Transaction) : Reconciler.State :=
  fold_left (prepare env accountIdMap categoryIdMap) transactions Reconciler.initial.

(** One batch: [api.importTransactions(acctId, batch)], the report, then
    [api.sync()]. *)
Definition deliver_batch (acctId accountName : string) (batch : list Posting)
  : list ApiCall * list LogLine :=
  match batch with
  | [] => ([], [])
  | _ => ([ImportTransactions acctId batch; Sync],
          [LogImported (List.length batch) accountName])
  end.

Definition merge2 (x y : list ApiCall * list LogLine) : list ApiCall * list LogLine :=
  (fst x ++ fst y, snd x ++ snd y).

Definition deliver_account (accountIdMap : list (string * string))
    (entry : string * list Posting) : list ApiCall * list LogLine :=
  let accountName := Reconciler.display_name accountIdMap (fst entry) in
  fold_right merge2 ([], [])
    (List.map (deliver_batch (fst entry) accountName) (Reconciler.batches (snd entry))).

Definition deliver (accountIdMap : list (string * string))
    (byAccount : list (string * list Posting)) : list ApiCall * list LogLine :=
  fold_right merge2 ([], []) (List.map (deliver_account accountIdMap) byAccount).

Definition importTransactions (env : Reconciler.Env) (transactions : list Transaction)
    (accountIdMap categoryIdMap : list (string * string))
  : list (string * list Posting) * list ApiCall * list LogLine :=
  let st := prepare_all env accountIdMap categoryIdMap transactions in
  let '(calls, lines) := deliver accountIdMap (Reconciler.transactionsByAccount st) in
  (Reconciler.transactionsByAccount st, calls, Reconciler.console st ++ lines).

End ImporterJs.

(** ** Numbers: [parseFloat], [* 100] and [Math.round]

    Doubles are the [spec_float] of the Standard Library at precision 53
    and maximal exponent 1024, with its correctly rounded operations. *)

Module Number.
Local Open Scope Z_scope.

Definition prec : Z := 53.
Definition emax : Z := 1024.

Definition code (c : ascii) : Z := Z.of_nat (nat_of_ascii c).
Definition is_digit (c : ascii) : bool := (48 <=? code c) && (code c <=? 57).

(** [s.replace(",", ".")]: the first comma only. *)
Fixpoint replace_comma (s : string) : string :=
  match s with
  | EmptyString => EmptyString
  | String c rest =>
      if Ascii.eqb c ","%char then String "."%char rest
      else String c (replace_comma rest)
  end.

(** [s || "0"]. *)
Definition or_zero (s : string) : string :=
  if Js.truthy s then s else "0"%string.

(** Leading white space and line terminators, as [parseFloat] skips
    them, on the UTF-8 bytes: TAB, LF, VT, FF, CR, SP, U+00A0, U+1680,
    U+2000 to U+200A, U+2028, U+2029, U+202F, U+205F, U+3000, U+FEFF. *)
Definition ws1 (a : Z) : bool :=
  (a =? 9) || (a =? 10) || (a =? 11) || (a =? 12) || (a =? 13) || (a =? 32).
Definition ws2 (a b : Z) : bool := (a =? 194) && (b =? 160).
Definition ws3 (a b c : Z) : bool :=
  ((a =? 225) && (b =? 154) && (c =? 128)) ||
  ((a =? 226) && (b =? 128) &&
     (((128 <=? c) && (c <=? 138)) || (c =? 168) || (c =? 169) || (c =? 175))) ||
  ((a =? 226) && (b =? 129) && (c =? 159)) ||
  ((a =? 227) && (b =? 128) && (c =? 128)) ||
  ((a =? 239) && (b =? 187) && (c =? 191)).

Fixpoint skip_ws (s : string) : string :=
  match s with
  | String a r1 =>
      if ws1 (code a) then skip_ws r1
      else match r1 with
           | String b r2 =>
               if ws2 (code a) (code b) then skip_ws r2
               else match r2 with
                    | String c r3 =>
                        if ws3 (code a) (code b) (code c) then skip_ws r3 else s
                    | EmptyString => s
                    end
           | EmptyString => s
           end
  | EmptyString => s
  end.

(** The longest run of decimal digits at the head of [s]: the number
    read so far, extended by the run; the length of the run; the rest. *)
Fixpoint digits (s : string) (acc count : Z) : Z * Z * string :=
  match s with
  | String c rest =>
      if is_digit c then digits rest (10 * acc + (code c - 48)) (count + 1)
      else (acc, count, s)
  | EmptyString => (acc, count, s)
  end.

(** An [ExponentPart] at the head of [s], when there is a complete one. *)
Definition exponent (s : string) : Z :=
  match s with
  | String c rest =>
      if Ascii.eqb c "e"%char || Ascii.eqb c "E"%char then
        match rest with
        | String sg rest' =>
            if Ascii.eqb sg "-"%char then
              let '(v, n, _) := digits rest' 0 0 in if 0 <? n then - v else 0
            else if Ascii.eqb sg "+"%char then
              let '(v, n, _) := digits rest' 0 0 in if 0 <? n then v else 0
            else
              let '(v, n, _) := digits rest 0 0 in if 0 <? n then v else 0
        | EmptyString => 0
        end
      else 0
  | EmptyString => 0
  end.

(** The longest prefix of [s] that is a [StrUnsignedDecimalLiteral] other
    than [Infinity], as a pair [(m, e)] standing for [m * 10^e]. *)
Definition unsigned_decimal (s : string) : option (Z * Z) :=
  let '(ip, ic, r1) := digits s 0 0 in
  match r1 with
  | String "."%char r2 =>
      let '(m, fc, r3) := digits r2 ip 0 in
      if (0 <? ic) || (0 <? fc) then Some (m, exponent r3 - fc) else None
  | _ => if 0 <? ic then Some (ip, exponent r1) else None
  end.

(** The double nearest to [m * 10^e], ties to even. *)
Definition of_decimal (negative : bool) (m e : Z) : spec_float :=
  match m with
  | Zpos p =>
      if 0 <=? e
      then binary_normalize prec emax
             (if negative then - (m * 10 ^ e) else m * 10 ^ e) 0 negative
      else SFdiv prec emax (S754_finite negative p 0)
             (S754_finite false (Z.to_pos (10 ^ (- e))) 0)
  | _ => S754_zero negative
  end.

Definition unsigned_literal (negative : bool) (s : string) : spec_float :=
  if String.prefix "Infinity" s then S754_infinity negative
  else match unsigned_decimal s with
       | Some (m, e) => of_decimal negative m e
       | None => S754_nan
       end.

Definition parseFloat (s : string) : spec_float :=
  match skip_ws s with
  | String "-"%char rest => unsigned_literal true rest
  | String "+"%char rest => unsigned_literal false rest
  | trimmed => unsigned_literal false trimmed
  end.

Definition hundred : spec_float := binary_normalize prec emax 100 0 false.

(** [Math.round(x)]: the integer nearest to [x], the larger one on a
    tie. *)
Definition round (x : spec_float) : Js.num :=
  match x with
  | S754_nan => Js.NaN
  | S754_infinity s => Js.Inf s
  | S754_zero _ => Js.Int 0
  | S754_finite s m e =>
      let n := if s then Z.neg m else Z.pos m in
      if 0 <=? e then Js.Int (n * 2 ^ e)
      else Js.Int ((2 * n + 2 ^ (- e)) / 2 ^ (1 - e))
  end.

(** [parseFloat(text.replace(",", ".") || "0") * 100] *)
Definition product (text : string) : spec_float :=
  SFmul prec emax (parseFloat (or_zero (replace_comma text))) hundred.

(** [Math.round(parseFloat(text.replace(",", ".") || "0") * 100)] *)
Definition cents (text : string) : Js.num := round (product text).

(** [z] is the integer nearest to [n * 2^e], the larger one on a tie:
    [z - 1/2 <= n * 2^e < z + 1/2]. *)
Definition nearest_ties_up (n e z : Z) : Prop :=
  if 0 <=? e then z = n * 2 ^ e
  else (2 * z - 1) * 2 ^ (- e) <= 2 * n < (2 * z + 1) * 2 ^ (- e).

(** *** Rounding a decimal fraction under a tie rule

    The reading of "one rounding rule" on the decimal value itself:
    [n / d] goes to the nearest integer, and the rule decides between
    the two neighbours of a value that lies halfway. *)
Inductive TieRule :=
| HalfUp | HalfDown | HalfEven | HalfOdd | HalfAwayFromZero | HalfTowardZero.

Definition round_fraction (rule : TieRule) (n d : Z) : Z :=
  let q := n / d in
  match 2 * (n mod d) ?= d with
  | Lt => q
  | Gt => q + 1
  | Eq =>
      match rule with
      | HalfUp => q + 1
      | HalfDown => q
      | HalfEven => if Z.even q then q else q + 1
      | HalfOdd => if Z.even q then q + 1 else q
      | HalfAwayFromZero => if 0 <=? q then q + 1 else q
      | HalfTowardZero => if 0 <=? q then q else q + 1
      end
  end.

(** The cents of a plain decimal text ([-] digits [,] digits) under a
    tie rule, computed on the decimal value. *)
Definition decimal_cents (rule : TieRule) (text : string) : option Z :=
  let s := replace_comma text in
  let '(negative, body) :=
    match s with
    | String "-"%char rest => (true, rest)
    | _ => (false, s)
    end in
  match unsigned_decimal body with
  | Some (m, e) =>
      let n := if negative then - m else m in
      if 0 <=? e + 2 then Some (n * 10 ^ (e + 2))
      else Some (round_fraction rule n (10 ^ (- (e + 2))))
  | None => None
  end.

End Number.

(** ** SHA-256 (FIPS 180-4) over bytes, and its hexadecimal digest

    [crypto.createHash("sha256").update(text).digest("hex")] hashes the
    UTF-8 bytes of [text]. *)

Module Sha256.
Local Open Scope Z_scope.

Definition modulus : Z := 2 ^ 32.
Definition add32 (x y : Z) : Z := (x + y) mod modulus.
Definition rotr (n x : Z) : Z :=
  Z.lor (Z.shiftr x n) ((Z.shiftl x (32 - n)) mod modulus).
Definition not32 (x : Z) : Z := Z.lxor x (modulus - 1).

Definition Ch (x y z : Z) : Z := Z.lxor (Z.land x y) (Z.land (not32 x) z).
Definition Maj (x y z : Z) : Z :=
  Z.lxor (Z.lxor (Z.land x y) (Z.land x z)) (Z.land y z).
Definition Sigma0 (x : Z) : Z := Z.lxor (Z.lxor (rotr 2 x) (rotr 13 x)) (rotr 22 x).
Definition Sigma1 (x : Z) : Z := Z.lxor (Z.lxor (rotr 6 x) (rotr 11 x)) (rotr 25 x).
Definition sigma0 (x : Z) : Z := Z.lxor (Z.lxor (rotr 7 x) (rotr 18 x)) (Z.shiftr x 3).
Definition sigma1 (x : Z) : Z := Z.lxor (Z.lxor (rotr 17 x) (rotr 19 x)) (Z.shiftr x 10).

(** The constants of the standard: the first 32 bits of the fractional
    parts of the cube roots of the first 64 primes, and of the square
    roots of the first 8 primes. *)
Definition is_prime (n : nat) : bool :=
  forallb (fun d => negb (n mod d =? 0)%nat) (seq 2 (n - 2)).

Definition primes : list Z :=
  List.map Z.of_nat (firstn 64 (filter is_prime (seq 2 320))).

(** The largest [r] below [2^36] with [r^3 <= n]. *)
Definition cube_root (n : Z) : Z :=
  fold_left
    (fun r bit => let r' := r + 2 ^ Z.of_nat bit in if r' * r' * r' <=? n then r' else r)
    (rev (seq 0 36)) 0.

Definition K : list Z :=
  Eval vm_compute in List.map (fun p => cube_root (p * 2 ^ 96) mod modulus) primes.

Definition H0 : list Z :=
  Eval vm_compute in List.map (fun p => Z.sqrt (p * 2 ^ 64) mod modulus) (firstn 8 primes).

Definition word (l : list Z) (i : nat) : Z := nth i l 0.

(** Padding: the byte [0x80], zero bytes up to 56 modulo 64, and the
    length in bits on eight bytes, most significant first. *)
Definition be_bytes (count : nat) (x : Z) : list Z :=
  List.map (fun i => (Z.shiftr x (8 * Z.of_nat (count - 1 - i))) mod 256) (seq 0 count).

Definition pad (message : list Z) : list Z :=
  let len := Z.of_nat (List.length message) in
  let zeros := Z.to_nat ((55 - len) mod 64) in
  message ++ [128] ++ repeat 0 zeros ++ be_bytes 8 (8 * len).

(** Four bytes to a word, most significant first; sixteen words a block. *)
Fixpoint words (bytes : list Z) : list Z :=
  match bytes with
  | a :: b :: c :: d :: rest =>
      (((a * 256 + b) * 256 + c) * 256 + d) :: words rest
  | _ => []
  end.

Fixpoint blocks (fuel : nat) (ws : list Z) : list (list Z) :=
  match fuel, ws with
  | S fuel', _ :: _ => firstn 16 ws :: blocks fuel' (skipn 16 ws)
  | _, _ => []
  end.

(** Message schedule: sixteen words extended to sixty-four. *)
Definition schedule (block : list Z) : list Z :=
  fold_left
    (fun W t =>
       W ++ [add32 (add32 (add32 (sigma1 (word W (t - 2))) (word W (t - 7)))
                          (sigma0 (word W (t - 15))))
                   (word W (t - 16))])
    (seq 16 48) block.

Record Vars := { va : Z; vb : Z; vc : Z; vd : Z; ve : Z; vf : Z; vg : Z; vh : Z }.

Definition round (W : list Z) (v : Vars) (t : nat) : Vars :=
  let T1 := add32 (add32 (add32 (add32 (vh v) (Sigma1 (ve v)))
                                (Ch (ve v) (vf v) (vg v)))
                         (word K t))
                  (word W t) in
  let T2 := add32 (Sigma0 (va v)) (Maj (va v) (vb v) (vc v)) in
  {| va := add32 T1 T2; vb := va v; vc := vb v; vd := vc v;
     ve := add32 (vd v) T1; vf := ve v; vg := vf v; vh := vg v |}.

Definition compress (H : list Z) (block : list Z) : list Z :=
  let W := schedule block in
  let v0 := {| va := word H 0; vb := word H 1; vc := word H 2; vd := word H 3;
               ve := word H 4; vf := word H 5; vg := word H 6; vh := word H 7 |} in
  let v := fold_left (round W) (seq 0 64) v0 in
  [ add32 (va v) (word H 0); add32 (vb v) (word H 1);
    add32 (vc v) (word H 2); add32 (vd v) (word H 3);
    add32 (ve v) (word H 4); add32 (vf v) (word H 5);
    add32 (vg v) (word H 6); add32 (vh v) (word H 7) ].

(** The eight words of the digest. *)
Definition digest_words (message : list Z) : list Z :=
  let ws := words (pad message) in
  fold_left compress (blocks (List.length ws) ws) H0.

Definition hex_digit (x : Z) : ascii :=
  ascii_of_nat (Z.to_nat (if x <? 10 then 48 + x else 87 + x)).

Definition hex_word (x : Z) : string :=
  fold_right (fun i s => String (hex_digit ((Z.shiftr x (4 * Z.of_nat (7 - i))) mod 16)) s)
             EmptyString (seq 0 8).

Definition hex (ws : list Z) : string :=
  fold_right (fun x s => (hex_word x ++ s)%string) EmptyString ws.

Definition bytes_of (text : string) : list Z :=
  List.map (fun c => Z.of_nat (nat_of_ascii c)) (list_ascii_of_string text).


(** The digest read as one number, most significant word first. *)
Definition number (ws : list Z) : Z :=
  fold_left (fun acc w => acc * modulus + w) ws 0.

(** [createHash("sha256").update(text).digest("hex")] *)
Definition sha256_hex (text : string) : string := hex (digest_words (bytes_of text)).

End Sha256.

(** ** [JSON.stringify] of a parsed row

    A row is the list of the properties of the object that the CSV parser
    emits, in enumeration order: trimmed header and raw cell. *)

Definition Row := list (string * string).

Module Json.

Definition dquote : ascii := ascii_of_nat 34.
Definition backslash : ascii := ascii_of_nat 92.

(** [QuoteJSONString] on one byte: the short escapes, [\u00xx] for the
    other control characters, everything else as it is. *)
Definition escape_char (c : ascii) : string :=
  let n := nat_of_ascii c in
  if n =? 8 then "\b"
  else if n =? 9 then "\t"
  else if n =? 10 then "\n"
  else if n =? 12 then "\f"
  else if n =? 13 then "\r"
  else if n =? 34 then String backslash (String dquote EmptyString)
  else if n =? 92 then "\\"
  else if n <? 32 then
    String backslash
      (String "u" (String "0" (String "0"
         (String (Sha256.hex_digit (Z.of_nat (n / 16)))
            (String (Sha256.hex_digit (Z.of_nat (n mod 16))) EmptyString)))))
  else String c EmptyString.

Fixpoint escape (s : string) : string :=
  match s with
  | EmptyString => EmptyString
  | String c rest => (escape_char c ++ escape rest)%string
  end.

Definition quote (s : string) : string :=
  String dquote (escape s ++ String dquote EmptyString)%string.

Definition member (kv : string * string) : string :=
  (quote (fst kv) ++ ":" ++ quote (snd kv))%string.

Fixpoint members_tail (row : Row) : string :=
  match row with
  | [] => "}"
  | kv :: rest => ("," ++ member kv ++ members_tail rest)%string
  end.

(** [JSON.stringify(row)] *)
Definition stringify (row : Row) : string :=
  match row with
  | [] => "{}"
  | kv :: rest => ("{" ++ member kv ++ members_tail rest)%string
  end.

(** *** Reading a quoted string back *)




End Json.

(** ** The content fingerprint of a row *)

Definition fingerprint (row : Row) : string :=
  Sha256.sha256_hex (Json.stringify row).


(** ** The two calls into date-fns

    date-fns is a library the script imports; this is its documented
    behaviour for the two patterns the script uses.
    [parse(s, "dd.MM.yyyy", ref)]: the tokens [dd] and [MM] read one or
    two digits, [yyyy] one to four, the points
    are literal, only white space may follow, and the year must be
    positive, the month between 1 and 12, the day within the month;
    anything else is an Invalid Date ([None]).  The result is midnight of
    that day in local time. *)

Module DateFns.
Local Open Scope Z_scope.

Record Date := { year : Z; month : Z; day : Z }.

(** [/^\d{1,n}/] and [parseInt] of what it matched. *)
Fixpoint upto_digits (n : nat) (s : string) (acc : Z) (count : nat)
  : Z * nat * string :=
  match n, s with
  | S n', String c rest =>
      if Number.is_digit c
      then upto_digits n' rest (10 * acc + (Number.code c - 48)) (S count)
      else (acc, count, s)
  | _, _ => (acc, count, s)
  end.

Definition number (n : nat) (s : string) : option (Z * string) :=
  let '(v, count, rest) := upto_digits n s 0 0 in
  match count with O => None | S _ => Some (v, rest) end.

Definition point (s : string) : option string :=
  match s with
  | String "."%char rest => Some rest
  | _ => None
  end.

Definition only_whitespace (s : string) : bool :=
  match Number.skip_ws s with EmptyString => true | _ => false end.

Definition leap (y : Z) : bool :=
  (y mod 400 =? 0) || ((y mod 4 =? 0) && negb (y mod 100 =? 0)).

Definition days_in_month (y m : Z) : Z :=
  if m =? 2 then (if leap y then 29 else 28)
  else if (m =? 4) || (m =? 6) || (m =? 9) || (m =? 11) then 30
  else 31.

Definition valid (d : Date) : bool :=
  (0 <? year d) && (1 <=? month d) && (month d <=? 12) &&
  (1 <=? day d) && (day d <=? days_in_month (year d) (month d)).

(** [parse(s, "dd.MM.yyyy", new Date())] *)
Definition parse (s : string) : option Date :=
  match number 2 s with
  | Some (d, s1) =>
      match point s1 with
      | Some s2 =>
          match number 2 s2 with
          | Some (m, s3) =>
              match point s3 with
              | Some s4 =>
                  match number 4 s4 with
                  | Some (y, s5) =>
                      let date := {| year := y; month := m; day := d |} in
                      if only_whitespace s5 && valid date then Some date else None
                  | None => None
                  end
              | None => None
              end
          | None => None
          end
      | None => None
      end
  | None => None
  end.

(** [addLeadingZeros(n, len)] for [n >= 0]. *)
Definition pad (len : nat) (n : Z) : string :=
  let text := Js.string_of_nat (Z.to_nat n) in
  (string_of_list_ascii (repeat "0"%char (len - String.length text)) ++ text)%string.

(** [format(date, "yyyy-MM-dd")] on a valid date. *)
Definition format (d : Date) : string :=
  (pad 4 (year d) ++ "-" ++ pad 2 (month d) ++ "-" ++ pad 2 (day d))%string.

Definition before (a b : Date) : bool :=
  (year a <? year b) ||
  ((year a =? year b) &&
     ((month a <? month b) || ((month a =? month b) && (day a <? day b)))).

(** [isAfter(parse(s, ...), new Date())], where the clock reads some
    time of the day [today]: midnight of [d] is later than that exactly
    when [d] is a later day. *)
Definition isAfter (d today : Date) : bool := before today d.

End DateFns.

(** ** [parseDate], [cleanData] and [loadCSV], from the parsed rows on *)

Module Loader.
Import Js.

Record Env := {
  FORCE_DUPLICATES : bool;
  today : DateFns.Date;                (* the day the clock shows *)
  toLowerCase : string -> string;      (* String.prototype.toLowerCase *)
  he_decode : string -> string         (* he.decode *)
}.

Record State := {
  transactions : list Transaction;
  accounts : list string;
  categories : list (string * bool);   (* { name, is_income } *)
  importedIdMap : list (string * list Row);
  console : list LogLine
}.

Definition initial : State :=
  {| transactions := []; accounts := []; categories := [];
     importedIdMap := []; console := [] |}.

(** The load either completes a step or dies on a TypeError raised by
    reading a property of [undefined]. *)
Inductive Outcome :=
| Done (st : State)
| TypeError (property : string).

(** [parseDate]: the formatted date, or [null] after a warning. *)
Definition parseDate (dateString : string) : option string * list LogLine :=
  match DateFns.parse dateString with
  | Some d => (Some (DateFns.format d), [])
  | None => (None, [WarnInvalidDate dateString])
  end.

Definition encodingFixes : list (string * string) :=
  [ ("Ã¤", "ä"); ("Ã¶", "ö"); ("Ã¼", "ü"); ("ÃŸ", "ß");
    ("Ã„", "Ä"); ("Ã–", "Ö"); ("Ãœ", "Ü");
    ("Ã©", "é"); ("Ã¨", "è"); ("Ã´", "ô"); ("Ãª", "ê");
    ("Ã€", "À"); ("Ã¡", "á"); ("Ã¢", "â"); ("Ã£", "ã");
    ("Ã±", "ñ"); ("Ã§", "ç") ].

(** [s.replace(new RegExp(wrong, "g"), correct)] for a literal, non-empty
    [wrong]; [skip] counts the bytes of a match still to pass over. *)
Fixpoint replace_from (wrong correct s : string) (skip : nat) : string :=
  match s with
  | EmptyString => EmptyString
  | String c rest =>
      match skip with
      | S k => replace_from wrong correct rest k
      | O =>
          if String.prefix wrong s
          then (correct ++ replace_from wrong correct rest (String.length wrong - 1))%string
          else String c (replace_from wrong correct rest 0)
      end
  end.

Definition replace_all (wrong correct s : string) : string :=
  replace_from wrong correct s 0.

Fixpoint trim_end (s : string) : string :=
  match s with
  | EmptyString => EmptyString
  | String c rest =>
      match Number.skip_ws s with
      | EmptyString => EmptyString
      | _ => String c (trim_end rest)
      end
  end.

(** [s.trim()] *)
Definition trim (s : string) : string := trim_end (Number.skip_ws s).

Definition cleanData (env : Env) (text : option string) : string :=
  match truthy_opt text with
  | None => ""
  | Some text =>
      let fixedText :=
        fold_left (fun acc pair => replace_all (fst pair) (snd pair) acc)
                  encodingFixes text in
      he_decode env (trim fixedText)
  end.

(** [accounts.add(name)] on a [Set]. *)
Definition set_add (name : string) (set : list string) : list string :=
  if existsb (String.eqb name) set then set else set ++ [name].

Definition has_category (name : string) (is_income : bool)
    (set : list (string * bool)) : bool :=
  existsb (fun cat => String.eqb (fst cat) name && Bool.eqb (snd cat) is_income) set.

(** [{ ...row, imported_id: id }] *)
Definition with_imported_id (row : Row) (id : string) : Row :=
  map_set "imported_id" id row.

(** The identity engine: the import identity of a row, and the index
    with the row recorded. *)
Definition assign_identity (force : bool) (index : list (string * list Row))
    (row : Row) : string * list (string * list Row) :=
  let baseImportedId := fingerprint row in
  match map_get baseImportedId index with
  | Some existingEntries =>
      let duplicateIndex := List.length existingEntries in
      let uniqueImportedId :=
        if force
        then (baseImportedId ++ "-" ++ string_of_nat duplicateIndex)%string
        else baseImportedId in
      (uniqueImportedId,
       map_set baseImportedId
         (existingEntries ++ [with_imported_id row uniqueImportedId]) index)
  | None =>
      (baseImportedId,
       map_set baseImportedId [with_imported_id row baseImportedId] index)
  end.

(** The engine over the rows that reach it, in order: the identities it
    assigns and the index it leaves. *)
Fixpoint identities (force : bool) (index : list (string * list Row))
    (rows : list Row) : list string * list (string * list Row) :=
  match rows with
  | [] => ([], index)
  | row :: rest =>
      let '(id, index') := assign_identity force index row in
      let '(ids, index'') := identities force index' rest in
      (id :: ids, index'')
  end.

(** [hash], [hash-1], [hash-2], ... *)
Definition suffixed (hash : string) (i : nat) : string :=
  match i with
  | O => hash
  | S _ => (hash ++ "-" ++ string_of_nat i)%string
  end.

Fixpoint row_eqb (a b : Row) : bool :=
  match a, b with
  | [], [] => true
  | (k, v) :: a', (k', v') :: b' =>
      String.eqb k k' && String.eqb v v' && row_eqb a' b'
  | _, _ => false
  end.

(** The identities that went to the occurrences of [row], in order. *)
Definition ids_of (row : Row) (rows : list Row) (ids : list string) : list string :=
  List.map snd (filter (fun p => row_eqb (fst p) row) (combine rows ids)).

Definition occurrences (row : Row) (rows : list Row) : nat :=
  List.length (filter (fun r => row_eqb r row) rows).

(** No fingerprint of the index has an empty list of rows. *)
Definition no_empty (index : list (string * list Row)) : Prop :=
  forall hash, map_get hash index <> Some [].

(** The rows recorded under a fingerprint. *)
Definition entries_of (hash : string) (index : list (string * list Row)) : list Row :=
  match map_get hash index with
  | Some entries => entries
  | None => []
  end.

Definition payee_label (counterAccount person group : string) : string :=
  if truthy counterAccount then counterAccount
  else if truthy person then ("👤 " ++ person ++ " ")%string
  else if truthy group then ("👥 " ++ group ++ " ")%string
  else "".

(** The rest of the handler, once the date was accepted and the two
    properties were read. *)
Definition accept (env : Env) (st : State) (row : Row)
    (formattedDate entryTypeText valueText : string) : State :=
  let entryType := toLowerCase env entryTypeText in
  let value := Number.cents valueText in
  let categoryName := cleanData env (map_get "Category" row) in
  let person := cleanData env (map_get "Person" row) in
  let accountName := cleanData env (map_get "Account" row) in
  let counterAccount := cleanData env (map_get "Counter Account" row) in
  let group := cleanData env (map_get "Group" row) in
  let note := cleanData env (map_get "Note" row) in
  let accounts1 :=
    if truthy accountName then set_add accountName (accounts st) else accounts st in
  let accounts2 :=
    if truthy counterAccount then set_add counterAccount accounts1 else accounts1 in
  let is_income := String.eqb entryType "income" in
  let categories' :=
    if truthy categoryName && negb (has_category categoryName is_income (categories st))
    then categories st ++ [(categoryName, is_income)]
    else categories st in
  let payee_name := payee_label counterAccount person group in
  let '(uniqueImportedId, index') :=
    assign_identity (FORCE_DUPLICATES env) (importedIdMap st) row in
  {| transactions :=
       transactions st ++
       [ {| t_date := formattedDate;
            t_amount := value;
            t_category := categoryName;
            t_payee_name := payee_name;
            t_notes := note;
            t_type := entryType;
            t_acctName := accountName;
            t_imported_id := uniqueImportedId |} ];
     accounts := accounts2;
     categories := categories';
     importedIdMap := index';
     console := console st |}.

Definition warn (st : State) (lines : list LogLine) : State :=
  {| transactions := transactions st;
     accounts := accounts st;
     categories := categories st;
     importedIdMap := importedIdMap st;
     console := console st ++ lines |}.

(** The handler of the ["data"] event. *)
Definition on_data (env : Env) (st : State) (row : Row) : Outcome :=
  match map_get "Date" row with
  | None => Done st
  | Some dateString =>
      let '(formattedDate, lines) := parseDate dateString in
      match formattedDate, DateFns.parse dateString with
      | Some formatted, Some date =>
          if DateFns.isAfter date (today env)
          then Done (warn st (lines ++ [WarnSkippingFuture dateString]))
          else
            match map_get "Entry Type" row with
            | None => TypeError "Entry Type"
            | Some entryTypeText =>
                match map_get "Value" row with
                | None => TypeError "Value"
                | Some valueText =>
                    Done (accept env (warn st lines) row formatted entryTypeText valueText)
                end
            end
      | _, _ => Done (warn st (lines ++ [WarnSkippingFuture dateString]))
      end
  end.

(** The rows in order; a TypeError ends the load. *)
Fixpoint feed (env : Env) (st : State) (rows : list Row) : Outcome :=
  match rows with
  | [] => Done st
  | row :: rest =>
      match on_data env st row with
      | Done st' => feed env st' rest
      | TypeError property => TypeError property
      end
  end.

Definition loadCSV (env : Env) (rows : list Row) : Outcome := feed env initial rows.

(** The rows that pass the date check. *)
Definition accepted (env : Env) (row : Row) : bool :=
  match map_get "Date" row with
  | Some dateString =>
      match DateFns.parse dateString with
      | Some date => negb (DateFns.isAfter date (today env))
      | None => false
      end
  | None => false
  end.

End Loader.

(** ** [importCategories] of the newer revision *)

Module Categories.
Import Js.

Record Group := { group_id : string; group_name : string; group_is_income : bool }.
Record Category := { category_id : string; category_name : string; category_is_income : bool }.

(** What the ledger answers: its category groups, its categories, and
    the identifier returned by the n-th creating call. *)
Record Env := {
  existingGroups : list Group;
  existingCategories : list Category;
  created : nat -> string
}.

Record State := {
  categoryIdMap : list (string * string);
  creations : nat;                     (* creating calls issued so far *)
  calls : list ApiCall;
  console : list LogLine
}.

Inductive Outcome :=
| Done (st : State)
| TypeError (property : string).

Definition kind_of (is_income : bool) : string :=
  if is_income then "income" else "expense".

(** The key under which a category is stored:
    [`${name}-${is_income ? "income" : "expense"}`]. *)
Definition key (name : string) (is_income : bool) : string :=
  Reconciler.category_key name (kind_of is_income).

Definition find_category (env : Env) (name : string) (is_income : bool) : option Category :=
  find (fun cat => String.eqb (category_name cat) name &&
                   Bool.eqb (category_is_income cat) is_income)
       (existingCategories env).

(** One callback of [[...categories].map(async ...)].  [importedGroupId]
    and [incomeGroupId] are the [id] of the two groups, the latter
    absent when the ledger has no income group. *)
Definition import_one (env : Env) (importedGroupId : string)
    (incomeGroupId : option string) (st : State) (cat : string * bool) : Outcome :=
  let '(name, is_income) := cat in
  match find_category env name is_income with
  | Some existingCategory =>
      Done {| categoryIdMap :=
                map_set (key name is_income) (category_id existingCategory)
                        (categoryIdMap st);
              creations := creations st;
              calls := calls st;
              console :=
                console st ++
                [LogCategoryExists name is_income (category_id existingCategory)] |}
  | None =>
      match (if is_income then incomeGroupId else Some importedGroupId) with
      | None => TypeError "id"
      | Some groupId =>
          let id := created env (creations st) in
          Done {| categoryIdMap := map_set (key name is_income) id (categoryIdMap st);
                  creations := S (creations st);
                  calls := calls st ++ [CreateCategory name groupId is_income];
                  console := console st ++ [LogCategoryCreated name is_income id] |}
      end
  end.

(** How a category came to its identifier: it is the identifier of the
    first category of the ledger with that name and flag, or, when there
    is none, the answer to a creating call made with that name and
    flag. *)
Definition resolved_or_created (env : Env) (calls : list ApiCall)
    (name : string) (is_income : bool) (id : string) : Prop :=
  match find_category env name is_income with
  | Some existingCategory => id = category_id existingCategory
  | None =>
      exists groupId n,
        In (CreateCategory name groupId is_income) calls /\ id = created env n
  end.

Fixpoint import_each (env : Env) (importedGroupId : string)
    (incomeGroupId : option string) (st : State) (cats : list (string * bool)) : Outcome :=
  match cats with
  | [] => Done st
  | cat :: rest =>
      match import_one env importedGroupId incomeGroupId st cat with
      | Done st' => import_each env importedGroupId incomeGroupId st' rest
      | TypeError property => TypeError property
      end
  end.

(** [importCategories(categories, categoryIdMap, transactions)] on an
    empty [categoryIdMap].  The callbacks are taken one after the other:
    they write under different keys, and the creating calls are issued
    in the order of the list. *)
Definition importCategories (env : Env) (categories : list (string * bool)) : Outcome :=
  let importedGroup :=
    find (fun g => String.eqb (group_name g) "Imported") (existingGroups env) in
  let incomeGroup := find group_is_income (existingGroups env) in
  let st0 :=
    match importedGroup with
    | Some g =>
        (group_id g,
         {| categoryIdMap := []; creations := 0; calls := []; console := [] |})
    | None =>
        (created env 0,
         {| categoryIdMap := [];
            creations := 1;
            calls := [CreateCategoryGroup "Imported" false];
            console := [LogCreatingImportedGroup] |})
    end in
  import_each env (fst st0) (option_map group_id incomeGroup) (snd st0) categories.

End Categories.

(** ** Reading the trace of ledger calls *)

Module Trace.

(** The batches handed over by [api.importTransactions], in order. *)
Definition imported (calls : list ApiCall) : list (string * list Posting) :=
  flat_map (fun c => match c with
                     | ImportTransactions acctId batch => [(acctId, batch)]
                     | _ => []
                     end) calls.

(** A map from account to postings, read as the sequence of postings
    each tagged with its account. *)
Definition tagged (groups : list (string * list Posting)) : list (string * Posting) :=
  flat_map (fun e => List.map (pair (fst e)) (snd e)) groups.

(** Every posting that some call delivered, tagged with the account of
    the call. *)
Definition delivered (calls : list ApiCall) : list (string * Posting) :=
  tagged (imported calls).

(** The keys under which postings are grouped: each once, each the
    identifier of an account of the map. *)
Definition grouped_by_account (accountIdMap : list (string * string))
    (byAccount : list (string * list Posting)) : Prop :=
  NoDup (List.map fst byAccount) /\
  forall acctId, In acctId (List.map fst byAccount) ->
                 exists name, In (name, acctId) accountIdMap.

End Trace.

(** ** A small ledger used in the examples *)

Module Sample.
Import Js.

Definition accountIdMap : list (string * string) :=
  [("Giro", "acct-giro"); ("Savings", "acct-savings"); ("Cash", "acct-cash")].

Definition categoryIdMap : list (string * string) :=
  [("Gifts-expense", "cat-gifts-out"); ("Gifts-income", "cat-gifts-in")].

(** The ledger knows a transfer payee for Giro and Savings, none for
    Cash. *)
Definition env : Reconciler.Env :=
  {| Reconciler.MARK_CLEARED := true;
     Reconciler.uuidv4 := fun n => ("uuid-" ++ string_of_nat n)%string;
     Reconciler.payees :=
       [ {| payee_id := "payee-rewe"; payee_transfer_acct := None |};
         {| payee_id := "payee-giro"; payee_transfer_acct := Some "acct-giro" |};
         {| payee_id := "payee-savings"; payee_transfer_acct := Some "acct-savings" |} ] |}.

Definition transaction (kind category payee : string) (amount : Z) : Transaction :=
  {| t_date := "2024-03-05";
     t_amount := Int amount;
     t_category := category;
     t_payee_name := payee;
     t_notes := "";
     t_type := kind;
     t_acctName := "Giro";
     t_imported_id := "id" |}.

(** Giro to Savings. *)
Definition transfer_resolved := transaction "transfer" "" "Savings" 1234.
(** Giro to Cash, which has no transfer payee. *)
Definition transfer_no_payee := transaction "transfer" "" "Cash" 1234.
Definition expense := transaction "expense" "Gifts" "Rewe" (-500).
Definition income := transaction "income" "Gifts" "Aunt" 2000.

(** Lower case on the letters A to Z; the sample rows hold no other
    capital letters. *)
Definition lower (c : ascii) : ascii :=
  let n := nat_of_ascii c in
  if (65 <=? n) && (n <=? 90) then ascii_of_nat (n + 32) else c.

Fixpoint lower_ascii (s : string) : string :=
  match s with
  | EmptyString => EmptyString
  | String c rest => String (lower c) (lower_ascii rest)
  end.

(** The clock shows 15 June 2024; the sample texts hold no HTML
    entities. *)
Definition loader (force : bool) : Loader.Env :=
  {| Loader.FORCE_DUPLICATES := force;
     Loader.today := {| DateFns.year := 2024; DateFns.month := 6; DateFns.day := 15 |};
     Loader.toLowerCase := lower_ascii;
     Loader.he_decode := fun s => s |}.

(** The ledger has an income group and no group "Imported"; it knows
    the expense category Gifts, not the income category Gifts. *)
Definition ledger : Categories.Env :=
  {| Categories.existingGroups :=
       [ {| Categories.group_id := "group-usual";
            Categories.group_name := "Usual Expenses";
            Categories.group_is_income := false |};
         {| Categories.group_id := "group-income";
            Categories.group_name := "Income";
            Categories.group_is_income := true |} ];
     Categories.existingCategories :=
       [ {| Categories.category_id := "cat-gifts-out";
            Categories.category_name := "Gifts";
            Categories.category_is_income := false |};
         {| Categories.category_id := "cat-salary";
            Categories.category_name := "Salary";
            Categories.category_is_income := true |} ];
     Categories.created := fun n => ("new-" ++ string_of_nat n)%string |}.

Definition row (date kind value category account counter note : string) : Row :=
  [ ("Date", date); ("Entry Type", kind); ("Value", value);
    ("Category", category); ("Person", ""); ("Account", account);
    ("Counter Account", counter); ("Group", ""); ("Note", note) ].

Definition row_expense := row "05.03.2024" "Expense" "-12,34" "Gifts" "Giro" "" "birthday".
Definition row_income := row "06.03.2024" "Income" "20,00" "Gifts" "Giro" "" "from aunt".
Definition row_transfer := row "07.03.2024" "Transfer" "100,00" "" "Giro" "Savings" "".
(** A transfer whose counter account cell is empty. *)
Definition row_transfer_open := row "08.03.2024" "Transfer" "12,34" "" "Giro" "" "".
Definition row_future := row "01.01.2031" "Expense" "-1,00" "Gifts" "Giro" "" "".
Definition row_bad_date := row "2024-03-05" "Expense" "-1,00" "Gifts" "Giro" "" "".
Definition row_short_year := row "5.3.24" "Expense" "-1,00" "Gifts" "Giro" "" "".
(** The expense row with one more blank at the end of its note. *)
Definition row_expense_blank := row "05.03.2024" "Expense" "-12,34" "Gifts" "Giro" "" "birthday ".
(** A dated row without the columns Entry Type and Value. *)
Definition row_truncated : Row := [("Date", "05.03.2024"); ("Account", "Giro")].
Definition row_no_value : Row :=
  [("Date", "05.03.2024"); ("Entry Type", "Expense"); ("Account", "Giro")].
(** A trailer line: no Date column. *)
Definition row_trailer : Row := [("Account", "Giro")].

End Sample.

(* ================================================================== *)
(** * Part II: properties *)
(* ================================================================== *)

(** ** Maps *)

Section MapFacts.
Import Js.
Context {A : Type}.
Implicit Types (m : list (string * list A)) (k : string).

Lemma map_get_set_same {V} (k : string) (v : V) (m : list (string * V)) :
  map_get k (map_set k v m) = Some v.
Proof.
  induction m as [|[k' v'] m IH]; simpl; unfold key_eqb, string_key in *.
  - now rewrite String.eqb_refl.
  - destruct (String.eqb k k') eqn:E; simpl; unfold key_eqb, string_key;
      [now rewrite String.eqb_refl | now rewrite E].
Qed.

Lemma map_get_set_other {V} (k k' : string) (v : V) (m : list (string * V)) :
  k <> k' -> map_get k' (map_set k v m) = map_get k' m.
Proof.
  intros Hne. induction m as [|[k0 v0] m IH]; simpl;
    unfold key_eqb, string_key in *.
  - destruct (String.eqb_spec k' k); congruence.
  - destruct (String.eqb_spec k k0); simpl; unfold key_eqb, string_key.
    + subst k0. destruct (String.eqb_spec k' k); congruence.
    + destruct (String.eqb_spec k' k0); auto.
Qed.

Lemma map_total_set k (l : list A) m :
  map_total (map_set k l m) + List.length (match map_get k m with Some l0 => l0 | None => [] end)
  = map_total m + List.length l.
Proof.
  unfold map_total.
  induction m as [|[k' l'] m IH]; simpl.
  - lia.
  - unfold key_eqb, string_key in *.
    destruct (String.eqb k k'); simpl; lia.
Qed.

Lemma map_has_ensure k m : map_has k (map_ensure k m) = true.
Proof.
  unfold map_ensure. destruct (map_has k m) eqn:E; auto.
  unfold map_has. now rewrite map_get_set_same.
Qed.

Lemma map_total_ensure k m : map_total (map_ensure k m) = map_total m.
Proof.
  unfold map_ensure, map_has.
  destruct (map_get k m) eqn:E; auto.
  pose proof (map_total_set k [] m) as H. rewrite E in H. simpl in H. lia.
Qed.

Lemma map_has_ensure_other k k' m :
  map_has k m = true -> map_has k (map_ensure k' m) = true.
Proof.
  unfold map_ensure. destruct (map_has k' m) eqn:E; auto.
  intros Hk. unfold map_has in *.
  destruct (String.eqb_spec k' k) as [->|Hne].
  - now rewrite map_get_set_same.
  - now rewrite map_get_set_other.
Qed.

Lemma map_total_push k (x : A) m :
  map_has k m = true -> map_total (map_push k x m) = S (map_total m).
Proof.
  unfold map_has, map_push. destruct (map_get k m) as [l|] eqn:E; [intros _|discriminate].
  pose proof (map_total_set k (l ++ [x]) m) as H. rewrite E in H.
  rewrite length_app in H. simpl in H. lia.
Qed.

Lemma map_has_push k k' (x : A) m :
  map_has k m = true -> map_has k (map_push k' x m) = true.
Proof.
  unfold map_push. destruct (map_get k' m) as [l|] eqn:E; auto.
  intros Hk. unfold map_has in *.
  destruct (String.eqb_spec k' k) as [->|Hne].
  - now rewrite map_get_set_same.
  - now rewrite map_get_set_other.
Qed.

Lemma map_get_push_same k (x : A) m l :
  map_get k m = Some l -> map_get k (map_push k x m) = Some (l ++ [x]).
Proof.
  intros E. unfold map_push. rewrite E. apply map_get_set_same.
Qed.

Lemma map_get_push_other k k' (x : A) m :
  k <> k' -> map_get k' (map_push k x m) = map_get k' m.
Proof.
  intros Hne. unfold map_push. destruct (map_get k m); auto.
  now apply map_get_set_other.
Qed.

Lemma map_get_In {V} (k : string) (v : V) (m : list (string * V)) :
  map_get k m = Some v -> In (k, v) m.
Proof.
  induction m as [|[k0 v0] m IH]; simpl; [discriminate|].
  unfold key_eqb, string_key. destruct (String.eqb_spec k k0) as [->|Hne].
  - intros [= ->]. now left.
  - intros H. right. now apply IH.
Qed.

Lemma keys_set {V} (k : string) (v : V) (m : list (string * V)) :
  NoDup (List.map fst m) ->
  NoDup (List.map fst (map_set k v m)) /\
  (forall k', In k' (List.map fst (map_set k v m)) -> k' = k \/ In k' (List.map fst m)).
Proof.
  induction m as [|[k0 v0] m IH]; simpl; intros Hnd.
  - split; [repeat constructor; auto | intros k' [H|[]]; auto].
  - unfold key_eqb, string_key. inversion Hnd as [|? ? Hnotin Hnd']; subst.
    destruct (String.eqb_spec k k0) as [->|Hne]; simpl.
    + split; [assumption | intros k' [H|H]; auto].
    + destruct (IH Hnd') as [IH1 IH2]. split.
      * constructor; [|assumption]. intros Hin.
        destruct (IH2 _ Hin); [congruence | contradiction].
      * intros k' [H|H]; [auto | destruct (IH2 _ H); auto].
Qed.

Lemma keys_ensure k m :
  NoDup (List.map fst m) ->
  NoDup (List.map fst (map_ensure k m)) /\
  (forall k', In k' (List.map fst (map_ensure k m)) -> k' = k \/ In k' (List.map fst m)).
Proof.
  intros Hnd. unfold map_ensure. destruct (map_has k m); [auto|].
  now apply keys_set.
Qed.

Lemma keys_push k (x : A) m :
  NoDup (List.map fst m) ->
  NoDup (List.map fst (map_push k x m)) /\
  (forall k', In k' (List.map fst (map_push k x m)) -> k' = k \/ In k' (List.map fst m)).
Proof.
  intros Hnd. unfold map_push. destruct (map_get k m); [|auto].
  now apply keys_set.
Qed.
End MapFacts.

(** ** Transfers in the posting stage *)

Section Transfers.
Import Js Reconciler.
Variable env : Env.
Variables accountIdMap categoryIdMap : list (string * string).

Lemma neg_involutive (x : num) : neg (neg x) = x.
Proof.
  destruct x as [|s|z]; simpl; [reflexivity | now rewrite negb_involutive |].
  f_equal. lia.
Qed.

Lemma add_neg_finite (x : num) : is_finite x = true -> add (neg x) x = Int 0.
Proof. destruct x as [|s|z]; simpl; try discriminate. intros _. f_equal. lia. Qed.

(** C1. A transfer whose account and counter account both resolve, and
    whose counter account has a transfer payee, adds exactly two postings:
    the primary one under the source account and the mirrored one under
    the counter account.  Each amount is the negation of the other (their
    sum is zero for every integer amount), each [transfer_id] is the
    other's [id], the primary carries the counter account's transfer
    payee, the mirrored one the source account's, and both have a null
    category.  The transaction is left as it was and nothing is logged.
    The counter account is looked up under the payee name of the
    transaction, which the loader sets to the counter account name when
    the row has one. *)
Theorem transfer_resolved_two_linked_postings
    (st : State) (t : Transaction) (acctId counterAcctId transferPayeeId : string) :
  t_type t = "transfer" ->
  truthy_opt (map_get (t_acctName t) accountIdMap) = Some acctId ->
  truthy_opt (map_get (t_payee_name t) accountIdMap) = Some counterAcctId ->
  truthy_opt (payee_of env counterAcctId) = Some transferPayeeId ->
  exists primary mirrored : Posting,
    let t' := fst (prepare env accountIdMap categoryIdMap st t) in
    let st' := snd (prepare env accountIdMap categoryIdMap st t) in
    t' = t /\
    transactionsByAccount st' =
      map_push counterAcctId mirrored
        (map_push acctId primary
           (map_ensure counterAcctId
              (map_ensure acctId (transactionsByAccount st)))) /\
    map_total (transactionsByAccount st') = map_total (transactionsByAccount st) + 2 /\
    p_amount primary = neg (p_amount mirrored) /\
    p_amount mirrored = neg (p_amount primary) /\
    p_amount mirrored = t_amount t /\
    (is_finite (t_amount t) = true ->
     add (p_amount primary) (p_amount mirrored) = Int 0) /\
    p_id primary = Some (uuidv4 env (uuids st)) /\
    p_id mirrored = Some (uuidv4 env (S (uuids st))) /\
    p_transfer_id primary = p_id mirrored /\
    p_transfer_id mirrored = p_id primary /\
    p_payee primary = Some transferPayeeId /\
    p_category primary = None /\
    p_payee mirrored = payee_of env acctId /\
    p_category mirrored = None /\
    console st' = console st.
Proof.
  intros Htype Hacct Hcounter Hpayee.
  unfold prepare. rewrite Hacct, Htype, Hcounter, Hpayee.
  cbn [String.eqb Ascii.eqb Bool.eqb fst snd].
  eexists. eexists.
  split; [reflexivity|]. split; [reflexivity|].
  cbn [transactionsByAccount console p_amount p_id p_transfer_id p_payee p_category].
  repeat split; auto using neg_involutive, add_neg_finite.
  rewrite map_total_push, map_total_push, !map_total_ensure; [lia | |].
  - apply map_has_ensure_other, map_has_ensure.
  - apply map_has_push, map_has_ensure.
Qed.

(** What the downgrade branch does: a transfer whose counter account does
    not resolve adds one posting without transfer link, carrying the
    amount of the transaction as it was; the negated amount and the kind
    ["expense"] are stored in the transaction object. *)
Lemma transfer_downgrade_posting (st : State) (t : Transaction) (acctId : string) :
  t_type t = "transfer" ->
  truthy_opt (map_get (t_acctName t) accountIdMap) = Some acctId ->
  truthy_opt (map_get (t_payee_name t) accountIdMap) = None ->
  exists posting : Posting,
    let t' := fst (prepare env accountIdMap categoryIdMap st t) in
    let st' := snd (prepare env accountIdMap categoryIdMap st t) in
    transactionsByAccount st' =
      map_push acctId posting (map_ensure acctId (transactionsByAccount st)) /\
    map_total (transactionsByAccount st') = map_total (transactionsByAccount st) + 1 /\
    p_amount posting = t_amount t /\
    p_transfer_id posting = None /\
    t_amount t' = neg (t_amount t) /\
    t_type t' = "expense" /\
    console st' = console st ++ [WarnTransferToExpense t].
Proof.
  intros Htype Hacct Hcounter.
  unfold prepare. rewrite Hacct, Htype, Hcounter.
  cbn [String.eqb Ascii.eqb Bool.eqb fst snd].
  eexists. split; [reflexivity|].
  cbn [transactionsByAccount console p_amount p_transfer_id t_amount t_type].
  repeat split; auto.
  rewrite map_total_push, map_total_ensure; [lia|apply map_has_ensure].
Qed.

(** C3. A transfer whose counter account resolves but has no transfer
    payee adds no posting: the transaction is left as it was, the skip is
    logged, and the loop goes on with the remaining transactions. *)
Theorem transfer_without_payee_skipped
    (st : State) (t : Transaction) (rest : list Transaction)
    (acctId counterAcctId : string) :
  t_type t = "transfer" ->
  truthy_opt (map_get (t_acctName t) accountIdMap) = Some acctId ->
  truthy_opt (map_get (t_payee_name t) accountIdMap) = Some counterAcctId ->
  truthy_opt (payee_of env counterAcctId) = None ->
  let st' := snd (prepare env accountIdMap categoryIdMap st t) in
  fst (prepare env accountIdMap categoryIdMap st t) = t /\
  map_total (transactionsByAccount st') = map_total (transactionsByAccount st) /\
  (forall k, map_get k (transactionsByAccount st') =
             if map_has k (transactionsByAccount st)
             then map_get k (transactionsByAccount st)
             else if String.eqb k acctId then Some [] else None) /\
  console st' = console st ++ [WarnNoTransferPayee t] /\
  prepare_all env accountIdMap categoryIdMap st (t :: rest) =
    (t :: fst (prepare_all env accountIdMap categoryIdMap st' rest),
     snd (prepare_all env accountIdMap categoryIdMap st' rest)).
Proof.
  intros Htype Hacct Hcounter Hpayee.
  cbn [prepare_all].
  unfold prepare. rewrite Hacct, Htype, Hcounter, Hpayee.
  cbn [String.eqb Ascii.eqb Bool.eqb fst snd transactionsByAccount console].
  split; [reflexivity|]. split; [apply map_total_ensure|].
  split; [|split; [reflexivity|]].
  - intros k. unfold map_ensure.
    destruct (map_has acctId (transactionsByAccount st)) eqn:Ha.
    + unfold map_has in *. destruct (map_get k (transactionsByAccount st)) eqn:Hk; auto.
      destruct (String.eqb_spec k acctId); auto. subst. now rewrite Hk in Ha.
    + destruct (String.eqb_spec k acctId) as [->|Hne].
      * rewrite Ha. apply map_get_set_same.
      * rewrite map_get_set_other by congruence.
        unfold map_has. now destruct (map_get k (transactionsByAccount st)).
  - now destruct (prepare_all env accountIdMap categoryIdMap _ rest).
Qed.
End Transfers.

(** ** Batches *)

Section Batches.
Import Js Reconciler.
Context {A : Type}.

Lemma concat_batches_from (size : nat) (a : list A) :
  1 <= size ->
  forall fuel i, List.length a - i <= fuel ->
    List.concat (batches_from size fuel i a) = skipn i a.
Proof.
  intros Hsize. induction fuel as [|fuel IH]; intros i Hfuel; cbn [batches_from].
  - simpl. symmetry. apply skipn_all2. lia.
  - destruct (Nat.ltb_spec i (List.length a)) as [Hlt|Hge].
    + cbn [List.concat]. rewrite IH by lia. unfold slice.
      replace (i + size - i) with size by lia.
      replace (i + size) with (size + i) by lia.
      rewrite <- skipn_skipn. apply firstn_skipn.
    + simpl. symmetry. apply skipn_all2. lia.
Qed.

Lemma batches_from_bounded (size : nat) (a : list A) :
  1 <= size ->
  forall fuel i,
    Forall (fun b => 1 <= List.length b <= size) (batches_from size fuel i a).
Proof.
  intros Hsize. induction fuel as [|fuel IH]; intros i; cbn [batches_from].
  - constructor.
  - destruct (Nat.ltb_spec i (List.length a)) as [Hlt|Hge]; constructor; auto.
    unfold slice. rewrite length_firstn, length_skipn. lia.
Qed.

Lemma concat_batches (a : list A) : List.concat (batches a) = a.
Proof.
  unfold batches. rewrite concat_batches_from; [reflexivity | unfold BATCH; lia | lia].
Qed.

Lemma batches_bounded (a : list A) :
  Forall (fun b => 1 <= List.length b <= BATCH) (batches a).
Proof. apply batches_from_bounded. unfold BATCH; lia. Qed.
End Batches.

(** ** Delivery *)

Section Delivery.
Import Js.

Lemma imported_app (c1 c2 : list ApiCall) :
  Trace.imported (c1 ++ c2) = Trace.imported c1 ++ Trace.imported c2.
Proof. apply flat_map_app. Qed.

Lemma tagged_app (g1 g2 : list (string * list Posting)) :
  Trace.tagged (g1 ++ g2) = Trace.tagged g1 ++ Trace.tagged g2.
Proof. apply flat_map_app. Qed.

Lemma tagged_batches (acctId : string) (bs : list (list Posting)) :
  Trace.tagged (List.map (pair acctId) bs) = List.map (pair acctId) (List.concat bs).
Proof.
  induction bs as [|b bs IH]; simpl; [reflexivity|].
  unfold Trace.tagged in *. simpl. rewrite IH. now rewrite map_app.
Qed.

(** The posting stage of [importer.js] hands over each batch it cuts. *)
Lemma importer_js_account_imported (acctId name : string) (bs : list (list Posting)) :
  Forall (fun b => 1 <= List.length b <= Reconciler.BATCH) bs ->
  Trace.imported
    (fst (fold_right ImporterJs.merge2 ([], [])
            (List.map (ImporterJs.deliver_batch acctId name) bs)))
  = List.map (pair acctId) bs.
Proof.
  induction 1 as [|b bs Hb _ IH]; simpl; [reflexivity|].
  rewrite imported_app, IH.
  destruct b; simpl in *; [lia | reflexivity].
Qed.

Lemma importer_js_deliver_imported accountIdMap (byAccount : list (string * list Posting)) :
  Trace.imported (fst (ImporterJs.deliver accountIdMap byAccount))
  = flat_map (fun e => List.map (pair (fst e)) (Reconciler.batches (snd e))) byAccount.
Proof.
  unfold ImporterJs.deliver.
  induction byAccount as [|[acctId l] rest IH]; simpl; [reflexivity|].
  rewrite imported_app, IH. f_equal.
  unfold ImporterJs.deliver_account. simpl.
  apply importer_js_account_imported, batches_bounded.
Qed.

(** In [importer.js] the postings delivered, call after call, are the
    grouped postings, each once and in order, and no call carries more
    than 1000 of them. *)
Lemma importer_js_delivers_each_posting_once accountIdMap
    (byAccount : list (string * list Posting)) :
  let calls := fst (ImporterJs.deliver accountIdMap byAccount) in
  Trace.delivered calls = Trace.tagged byAccount /\
  Forall (fun call => 1 <= List.length (snd call) <= 1000) (Trace.imported calls).
Proof.
  cbv zeta. unfold Trace.delivered. rewrite importer_js_deliver_imported. split.
  - induction byAccount as [|[acctId l] rest IH]; simpl; [reflexivity|].
    rewrite tagged_app, IH, tagged_batches, concat_batches. reflexivity.
  - apply Forall_flat_map, Forall_forall. intros [acctId l] _.
    apply Forall_map. simpl. apply batches_bounded.
Qed.

(** The delivery loop of the newer revision issues no call that carries
    postings, whatever was grouped, and still counts every posting as
    imported. *)
Lemma deliver_fold_no_import (parts : list (list ApiCall * list LogLine * nat)) :
  Forall (fun p => Trace.imported (fst (fst p)) = []) parts ->
  Trace.imported (fst (fst (fold_right Reconciler.merge3 ([], [], 0) parts))) = [].
Proof.
  induction 1 as [|[[c l] n] parts Hp _ IH]; simpl; [reflexivity|].
  destruct (fold_right Reconciler.merge3 ([], [], 0) parts) as [[c' l'] n'].
  simpl in *. now rewrite imported_app, Hp, IH.
Qed.

Lemma deliver_fold_total (parts : list (list ApiCall * list LogLine * nat)) :
  snd (fold_right Reconciler.merge3 ([], [], 0) parts)
  = list_sum (List.map snd parts).
Proof.
  induction parts as [|[[c l] n] parts IH]; simpl; [reflexivity|].
  destruct (fold_right Reconciler.merge3 ([], [], 0) parts) as [[c' l'] n'].
  simpl in *. now rewrite IH.
Qed.

Lemma deliver_counts_every_posting accountIdMap (byAccount : list (string * list Posting)) :
  snd (Reconciler.deliver accountIdMap byAccount) = map_total byAccount.
Proof.
  unfold Reconciler.deliver, map_total. rewrite deliver_fold_total, map_map.
  f_equal. apply map_ext. intros [acctId l].
  unfold Reconciler.deliver_account. cbn [fst snd].
  rewrite deliver_fold_total, map_map.
  rewrite <- (concat_batches l) at 2.
  induction (Reconciler.batches l) as [|b bs IH]; simpl; [reflexivity|].
  rewrite length_app, <- IH. now destruct b.
Qed.

Lemma deliver_hands_over_nothing accountIdMap (byAccount : list (string * list Posting)) :
  Trace.imported (fst (fst (Reconciler.deliver accountIdMap byAccount))) = [].
Proof.
  unfold Reconciler.deliver. apply deliver_fold_no_import.
  apply Forall_map, Forall_forall. intros [acctId l] _.
  unfold Reconciler.deliver_account. apply deliver_fold_no_import.
  apply Forall_map, Forall_forall. intros b _. now destruct b.
Qed.
End Delivery.

(** ** The posting stage on the sample ledger *)

Section PostingExamples.
Import Js Reconciler.

Lemma transfer_resolved_witness :
  (t_type Sample.transfer_resolved = "transfer" /\
   truthy_opt (map_get "Giro" Sample.accountIdMap) = Some "acct-giro" /\
   truthy_opt (map_get "Savings" Sample.accountIdMap) = Some "acct-savings" /\
   truthy_opt (payee_of Sample.env "acct-savings") = Some "payee-savings") /\
  exists primary mirrored : Posting,
    transactionsByAccount
      (snd (prepare Sample.env Sample.accountIdMap Sample.categoryIdMap initial
              Sample.transfer_resolved))
    = [("acct-giro", [primary]); ("acct-savings", [mirrored])] /\
    p_amount primary = Int (-1234) /\ p_amount mirrored = Int 1234 /\
    p_transfer_id primary = p_id mirrored /\
    p_transfer_id mirrored = p_id primary.
Proof.
  split; [repeat split|].
  destruct (transfer_resolved_two_linked_postings Sample.env Sample.accountIdMap
              Sample.categoryIdMap initial Sample.transfer_resolved
              "acct-giro" "acct-savings" "payee-savings"
              eq_refl eq_refl eq_refl eq_refl)
    as (primary & mirrored & _ & Hmap & _ & Hp & _ & Hm & _ & _ & _ & Hl1 & Hl2 & _).
  exists primary, mirrored.
  rewrite Hp, Hm. repeat split; auto.
Defined.

Lemma transfer_without_payee_witness :
  (t_type Sample.transfer_no_payee = "transfer" /\
   truthy_opt (map_get "Giro" Sample.accountIdMap) = Some "acct-giro" /\
   truthy_opt (map_get "Cash" Sample.accountIdMap) = Some "acct-cash" /\
   truthy_opt (payee_of Sample.env "acct-cash") = None) /\
  map_total
    (transactionsByAccount
       (snd (prepare Sample.env Sample.accountIdMap Sample.categoryIdMap initial
               Sample.transfer_no_payee))) = 0 /\
  console
    (snd (prepare Sample.env Sample.accountIdMap Sample.categoryIdMap initial
            Sample.transfer_no_payee))
  = [WarnNoTransferPayee Sample.transfer_no_payee].
Proof.
  split; [repeat split|].
  destruct (transfer_without_payee_skipped Sample.env Sample.accountIdMap
              Sample.categoryIdMap initial Sample.transfer_no_payee []
              "acct-giro" "acct-cash" eq_refl eq_refl eq_refl eq_refl)
    as (_ & Htotal & _ & Hlog & _).
  split; [exact Htotal | exact Hlog].
Defined.

(** C2. On the sample ledger, a transfer row of 12,34 whose counter
    account cell is empty is loaded as a transfer of 1234 with an empty
    payee name, which resolves to no account.  The posting stage yields
    one posting for it, without transfer link, whose amount is 1234 and
    not -1234: the negated amount and the kind "expense" are stored in the
    transaction object, from which the posting was built before. *)
Theorem transfer_downgrade_keeps_amount :
  exists loaded : Loader.State,
    Loader.loadCSV (Sample.loader false) [Sample.row_transfer_open] = Loader.Done loaded /\
    List.map (fun t => (t_type t, t_amount t, t_payee_name t)) (Loader.transactions loaded)
      = [("transfer", Int 1234, "")] /\
    let out := importTransactions Sample.env (Loader.transactions loaded)
                 Sample.accountIdMap Sample.categoryIdMap in
    List.map (fun e => (fst e, List.map (fun p => (p_amount p, p_transfer_id p)) (snd e)))
             (out_byAccount out)
      = [("acct-giro", [(Int 1234, None)])] /\
    List.map (fun t => (t_type t, t_amount t)) (out_transactions out)
      = [("expense", Int (-1234))] /\
    List.length (out_console out) = 2.
Proof. eexists. vm_compute. repeat split. Qed.

(** C4. On the sample ledger, one expense is grouped under its account
    and reported as imported, and the only call that reaches the ledger
    is [sync]: the batch is never handed over. *)
Theorem delivery_submits_no_batch :
  let out := importTransactions Sample.env [Sample.expense]
               Sample.accountIdMap Sample.categoryIdMap in
  List.map (fun e => (fst e, List.length (snd e))) (out_byAccount out)
    = [("acct-giro", 1)] /\
  out_calls out = [Sync] /\
  Trace.delivered (out_calls out) = [] /\
  out_totalImported out = 1 /\
  out_console out = [LogImported 1 "Giro"].
Proof. vm_compute. repeat split. Qed.

(** The same expense through the posting stage of [importer.js]: the
    batch is handed over, then synchronised. *)
Example importer_js_submits_the_batch :
  let '(byAccount, calls, _) :=
    ImporterJs.importTransactions Sample.env [Sample.expense]
      Sample.accountIdMap Sample.categoryIdMap in
  exists posting,
    byAccount = [("acct-giro", [posting])] /\
    calls = [ImportTransactions "acct-giro" [posting]; Sync].
Proof. vm_compute. eexists. split; reflexivity. Qed.
End PostingExamples.

(** ** The date check and the property reads of the loader *)

Section LoaderRows.
Import Js Loader.
Variable env : Env.

Lemma feed_app (st : State) (rows rest : list Row) :
  feed env st (rows ++ rest) =
  match feed env st rows with
  | Done st' => feed env st' rest
  | TypeError property => TypeError property
  end.
Proof.
  revert st. induction rows as [|row rows IH]; intros st; simpl; [reflexivity|].
  destruct (on_data env st row); auto.
Qed.

(** Where the handler can fail: only on a dated row that passed the date
    check and lacks one of the two properties. *)
Lemma on_data_type_error (st : State) (row : Row) (property : string) :
  on_data env st row = TypeError property ->
  (exists dateString date,
      map_get "Date" row = Some dateString /\
      DateFns.parse dateString = Some date /\
      DateFns.isAfter date (today env) = false) /\
  (map_get "Entry Type" row = None \/ map_get "Value" row = None).
Proof.
  unfold on_data, parseDate.
  destruct (map_get "Date" row) as [dateString|] eqn:Hdate; [|discriminate].
  destruct (DateFns.parse dateString) as [date|] eqn:Hparse; [|discriminate].
  destruct (DateFns.isAfter date (today env)) eqn:Hafter; [discriminate|].
  intros H. split; [now exists dateString, date|].
  destruct (map_get "Entry Type" row); [|now left].
  destruct (map_get "Value" row); [discriminate|now right].
Qed.


(** C10. A row that has a date passing the date check but lacks the entry
    type or the value makes the whole load end in a TypeError, whatever
    rows come before or after it; and a load whose dated rows all carry
    both properties ends without error. *)
Theorem dated_row_without_fields_fails_the_load :
  (forall (before after : list Row) (st : State) (row : Row)
          (dateString : string) (date : DateFns.Date),
      feed env initial before = Done st ->
      map_get "Date" row = Some dateString ->
      DateFns.parse dateString = Some date ->
      DateFns.isAfter date (today env) = false ->
      map_get "Entry Type" row = None \/ map_get "Value" row = None ->
      exists property, loadCSV env (before ++ row :: after) = TypeError property) /\
  (forall rows : list Row,
      (forall row, In row rows -> map_get "Date" row <> None ->
                   map_get "Entry Type" row <> None /\ map_get "Value" row <> None) ->
      exists st, loadCSV env rows = Done st).
Proof.
  split.
  - intros before after st row dateString date Hbefore Hdate Hparse Hafter Hmissing.
    unfold loadCSV. rewrite feed_app, Hbefore. cbn [feed].
    unfold on_data, parseDate. rewrite Hdate, Hparse, Hafter.
    destruct (map_get "Entry Type" row) as [entryType|]; [|now exists "Entry Type"].
    destruct Hmissing as [Hm|Hm]; [discriminate|]. rewrite Hm. now exists "Value".
  - intros rows. unfold loadCSV. generalize initial.
    induction rows as [|row rows IH]; intros st Hrows; cbn [feed]; [now exists st|].
    destruct (on_data env st row) as [st'|property] eqn:Hrow.
    + apply IH. intros r Hin. apply Hrows. now right.
    + apply on_data_type_error in Hrow.
      destruct Hrow as [(dateString & date & Hdate & _) Hmissing].
      destruct (Hrows row (or_introl eq_refl)) as [Htype Hvalue]; [congruence|].
      destruct Hmissing; contradiction.
Qed.
End LoaderRows.

Section LoaderExamples.
Import Js Loader.


(** Two-digit and one-digit fields are read under the same pattern: the
    year 24 is the year 24, printed on four digits. *)
Example short_year_example :
  option_map DateFns.format (DateFns.parse "5.3.24") = Some "0024-03-05" /\
  option_map DateFns.format (DateFns.parse "05.03.2024") = Some "2024-03-05" /\
  DateFns.parse "2024-03-05" = None /\
  DateFns.parse "31.04.2024" = None /\
  on_data (Sample.loader false) initial Sample.row_future
    = Done (warn initial [WarnSkippingFuture "01.01.2031"]).
Proof. vm_compute. repeat split. Qed.

Lemma missing_fields_witness :
  (map_get "Date" Sample.row_truncated = Some "05.03.2024" /\
   map_get "Entry Type" Sample.row_truncated = None) /\
  (exists property,
      loadCSV (Sample.loader false)
        ([Sample.row_expense] ++ Sample.row_truncated :: [Sample.row_income])
      = TypeError property) /\
  (exists st,
      loadCSV (Sample.loader false)
        [Sample.row_expense; Sample.row_trailer; Sample.row_future; Sample.row_income]
      = Done st).
Proof.
  split; [repeat split|]. split.
  - refine (proj1 (dated_row_without_fields_fails_the_load (Sample.loader false))
              [Sample.row_expense] [Sample.row_income] _ Sample.row_truncated
              "05.03.2024"
              {| DateFns.year := 2024; DateFns.month := 3; DateFns.day := 5 |}
              eq_refl eq_refl eq_refl eq_refl (or_introl eq_refl)).
  - apply (proj2 (dated_row_without_fields_fails_the_load (Sample.loader false))).
    intros row Hin Hdate.
    repeat (destruct Hin as [<-|Hin];
            [try (split; discriminate); exfalso; apply Hdate; reflexivity|]).
    destruct Hin.
Defined.
End LoaderExamples.

(** ** Amounts *)

Section Amounts.
Import Number.
Local Open Scope Z_scope.

Lemma round_nearest (s : bool) (m : positive) (e : Z) :
  exists z, round (S754_finite s m e) = Js.Int z /\
            nearest_ties_up (if s then Z.neg m else Z.pos m) e z.
Proof.
  unfold round, nearest_ties_up.
  set (n := if s then Z.neg m else Z.pos m).
  destruct (Z.leb_spec 0 e) as [He|He].
  - now exists (n * 2 ^ e).
  - exists ((2 * n + 2 ^ (- e)) / 2 ^ (1 - e)). split; [reflexivity|].
    replace (1 - e) with (Z.succ (- e)) by lia.
    rewrite Z.pow_succ_r by lia.
    assert (Hp : 0 < 2 ^ (- e)) by (apply Z.pow_pos_nonneg; lia).
    set (P := 2 ^ (- e)) in *.
    pose proof (Z.div_mod (2 * n + P) (2 * P) ltac:(lia)) as Hdm.
    pose proof (Z.mod_pos_bound (2 * n + P) (2 * P) ltac:(lia)) as Hb.
    set (q := (2 * n + P) / (2 * P)) in *.
    set (r := (2 * n + P) mod (2 * P)) in *.
    nia.
Qed.

(** C7, as the script computes it.  The amount is [Math.round] of the
    double product [parseFloat(text with its first comma turned into a
    point) * 100]: whenever that product is finite, the amount is the
    integer nearest to it, the larger one on a tie.  So "12,34" gives
    1234 and "-0,01" gives -1; "1,005" gives 100, because the product is
    the double just below 100.5, while "0,005" gives 1. *)
Theorem cents_rounds_the_double_product :
  (forall (text : string) (s : bool) (m : positive) (e : Z),
      product text = S754_finite s m e ->
      exists z, cents text = Js.Int z /\
                nearest_ties_up (if s then Z.neg m else Z.pos m) e z) /\
  cents "12,34" = Js.Int 1234 /\
  cents "-0,01" = Js.Int (-1) /\
  cents "1,005" = Js.Int 100 /\
  product "1,005" = S754_finite false 7072058789855231 (-46) /\
  cents "0,005" = Js.Int 1.
Proof.
  split.
  - intros text s m e Hp. unfold cents. rewrite Hp. apply round_nearest.
  - vm_compute. repeat split.
Qed.

Lemma cents_witness :
  product "1,005" = S754_finite false 7072058789855231 (-46) /\
  exists z, cents "1,005" = Js.Int z /\
            nearest_ties_up 7072058789855231 (-46) z.
Proof.
  split; [vm_compute; reflexivity|].
  exact (proj1 cents_rounds_the_double_product "1,005"%string false
           7072058789855231%positive (-46) eq_refl).
Defined.

(** C7, as the claim words it, fails: no rule for ties, applied to the
    decimal value of the text, gives the amounts of the script.  The
    texts "1,005" and "0,005" both lie halfway between two integers of
    cents; the script takes the lower neighbour for the first and the
    upper one for the second. *)
Lemma no_tie_rule_gives_the_cents :
  ~ exists rule : TieRule,
      forall (text : string) (c : Z),
        decimal_cents rule text = Some c -> cents text = Js.Int c.
Proof.
  intros [rule H].
  pose proof (H "1,005"%string _ eq_refl) as H1.
  pose proof (H "0,005"%string _ eq_refl) as H2.
  destruct rule; vm_compute in H1, H2; discriminate.
Qed.
End Amounts.

(** ** The serialisation of a row can be read back *)

Section JsonFacts.
Import Json.


Lemma append_inj_l (a b c : string) : (a ++ b)%string = (a ++ c)%string -> b = c.
Proof. induction a as [|x a IH]; simpl; [auto | intros H; injection H; auto]. Qed.






End JsonFacts.

(** ** The digest takes finitely many values *)

Section DigestFacts.
Import Sha256.
Local Open Scope Z_scope.








End DigestFacts.

(** The test vectors of the standard. *)
Example sha256_test_vectors :
  Sha256.sha256_hex ""
    = "e3b0c44298fc1c149afbf4c8996fb92427ae41e4649b934ca495991b7852b855" /\
  Sha256.sha256_hex "abc"
    = "ba7816bf8f01cfea414140de5dae2223b00361a396177a9cb410ff61f20015ad" /\
  Sha256.sha256_hex "abcdbcdecdefdefgefghfghighijhijkijkljklmklmnlmnomnopnopq"
    = "248d6a61d20638b8e5c026930c3e6039a33ce45964ff2167f6ecedd419db06c1".
Proof. vm_compute. repeat split. Qed.

(** ** More values than digests *)

Section Pigeonhole.
Local Open Scope Z_scope.


End Pigeonhole.

(** ** Fingerprints *)

Section Fingerprints.
Import Js Loader.
Local Open Scope Z_scope.




End Fingerprints.

(** ** The identity engine *)

Section Identity.
Import Js Loader.

Lemma row_eqb_spec (a b : Row) : reflect (a = b) (row_eqb a b).
Proof.
  revert b. induction a as [|[k v] a IH]; intros [|[k' v'] b]; simpl;
    try (constructor; congruence).
  destruct (String.eqb_spec k k'); simpl; [|constructor; congruence].
  destruct (String.eqb_spec v v'); simpl; [|constructor; congruence].
  destruct (IH b); constructor; congruence.
Qed.

Lemma append_empty_r (s : string) : (s ++ "")%string = s.
Proof. induction s as [|c s IH]; simpl; [reflexivity | now rewrite IH]. Qed.

Lemma string_of_nat_inj (i j : nat) : string_of_nat i = string_of_nat j -> i = j.
Proof.
  unfold string_of_nat. intros H.
  apply (f_equal NilEmpty.uint_of_string) in H.
  rewrite !NilEmpty.usu in H. injection H as H.
  now apply DecimalNat.Unsigned.to_uint_inj.
Qed.

Lemma suffixed_inj (hash : string) (i j : nat) :
  suffixed hash i = suffixed hash j -> i = j.
Proof.
  destruct i as [|i], j as [|j]; cbn [suffixed]; intros H; try reflexivity.
  - rewrite <- (append_empty_r hash) in H at 1.
    apply append_inj_l in H. discriminate.
  - rewrite <- (append_empty_r hash) in H at 2.
    apply append_inj_l in H. discriminate.
  - apply append_inj_l, append_inj_l in H. now apply string_of_nat_inj.
Qed.

Lemma suffixed_NoDup (hash : string) (start len : nat) :
  NoDup (List.map (suffixed hash) (seq start len)).
Proof.
  revert start. induction len as [|len IH]; intros start; simpl; constructor; [|apply IH].
  rewrite in_map_iff. intros (j & Hj & Hin).
  apply suffixed_inj in Hj. subst j. apply in_seq in Hin. lia.
Qed.

Lemma no_empty_set (index : list (string * list Row)) (hash : string) (entries : list Row) :
  no_empty index -> entries <> [] -> no_empty (map_set hash entries index).
Proof.
  intros Hidx Hne other. destruct (String.eqb_spec hash other) as [->|Hdiff].
  - rewrite map_get_set_same. congruence.
  - rewrite map_get_set_other by assumption. apply Hidx.
Qed.

Section OneRow.
Variable force : bool.
Variable row : Row.
Let hash := fingerprint row.

Lemma identities_gen (rows : list Row) :
  (forall other, In other rows -> fingerprint other = hash -> other = row) ->
  forall index, no_empty index -> NoDup (List.map fst index) ->
    let result := identities force index rows in
    ids_of row rows (fst result)
      = (if force
         then List.map (suffixed hash)
                (seq (List.length (entries_of hash index)) (occurrences row rows))
         else repeat hash (occurrences row rows)) /\
    List.map (map_get "imported_id") (entries_of hash (snd result))
      = List.map (map_get "imported_id") (entries_of hash index)
        ++ List.map Some (ids_of row rows (fst result)) /\
    no_empty (snd result) /\
    NoDup (List.map fst (snd result)).
Proof.
  induction rows as [|r rows IH]; intros Hrows index Hidx Hkeys.
  - cbn. rewrite app_nil_r. destruct force; auto.
  - cbn [identities].
    destruct (assign_identity force index r) as [id index'] eqn:Hstep.
    assert (Hstep' :
              no_empty index' /\ NoDup (List.map fst index') /\
              if row_eqb r row
              then id = (if force
                         then suffixed hash (List.length (entries_of hash index))
                         else hash) /\
                   entries_of hash index'
                     = entries_of hash index ++ [with_imported_id row id]
              else entries_of hash index' = entries_of hash index).
    { unfold assign_identity in Hstep.
      destruct (row_eqb_spec r row) as [->|Hdiff].
      - fold hash in Hstep. unfold entries_of.
        destruct (map_get hash index) as [entries|] eqn:Hget;
          injection Hstep as <- <-.
        + split; [apply no_empty_set; [assumption | now destruct entries]|].
          split; [now apply keys_set|].
          rewrite map_get_set_same. split; [|reflexivity].
          destruct force; [|reflexivity].
          destruct entries as [|e entries]; [now apply Hidx in Hget|].
          reflexivity.
        + split; [apply no_empty_set; [assumption | discriminate]|].
          split; [now apply keys_set|].
          rewrite map_get_set_same.
          split; [now destruct force | reflexivity].
      - assert (Hfp : fingerprint r <> hash).
        { intros Heq. apply Hdiff, Hrows; [now left | assumption]. }
        unfold entries_of.
        destruct (map_get (fingerprint r) index) as [entries|] eqn:Hget;
          injection Hstep as <- <-.
        + split; [apply no_empty_set; [assumption | now destruct entries]|].
          split; [now apply keys_set|].
          now rewrite map_get_set_other.
        + split; [apply no_empty_set; [assumption | discriminate]|].
          split; [now apply keys_set|].
          now rewrite map_get_set_other. }
    destruct Hstep' as (Hidx' & Hkeys' & Hthis).
    specialize (IH (fun other Hin => Hrows other (or_intror Hin)) index' Hidx' Hkeys').
    destruct (identities force index' rows) as [ids index''].
    cbn [fst snd] in *. destruct IH as (IHids & IHentries & IHidx & IHkeys).
    unfold ids_of, occurrences in *. cbn [combine filter fst].
    destruct (row_eqb r row).
    + destruct Hthis as [Hid Hentries]. cbn [List.map snd List.length].
      rewrite IHentries, IHids, Hentries, length_app, map_app, <- app_assoc.
      cbn [List.length List.map app].
      unfold with_imported_id at 1. rewrite map_get_set_same.
      replace (List.length (entries_of hash index) + 1)
        with (S (List.length (entries_of hash index))) by lia.
      split; [|auto]. subst id. now destruct force.
    + rewrite IHentries, IHids, Hthis. auto.
Qed.
End OneRow.

(** The handler runs the engine on a row exactly when the row passed the
    date check. *)
Lemma on_data_runs_the_engine (env : Env) (st st1 : State) (row : Row) :
  on_data env st row = Done st1 ->
  if accepted env row
  then exists t,
         transactions st1 = transactions st ++ [t] /\
         t_imported_id t
           = fst (assign_identity (FORCE_DUPLICATES env) (importedIdMap st) row) /\
         importedIdMap st1
           = snd (assign_identity (FORCE_DUPLICATES env) (importedIdMap st) row)
  else transactions st1 = transactions st /\ importedIdMap st1 = importedIdMap st.
Proof.
  unfold on_data, parseDate, accepted.
  destruct (map_get "Date" row) as [dateString|]; [|now intros [= <-]].
  destruct (DateFns.parse dateString) as [date|]; [|now intros [= <-]].
  destruct (DateFns.isAfter date (today env)); [now intros [= <-]|].
  destruct (map_get "Entry Type" row) as [entryType|]; [|discriminate].
  destruct (map_get "Value" row) as [value|]; [|discriminate].
  intros [= <-]. cbn [negb]. unfold accept. cbn [warn importedIdMap].
  destruct (assign_identity (FORCE_DUPLICATES env) (importedIdMap st) row)
    as [id index'].
  cbn [transactions importedIdMap fst snd]. eexists. repeat split.
Qed.

(** The identities of the transactions are those the engine assigns to
    the accepted rows, and the index is the one it leaves. *)
Lemma feed_runs_the_engine (env : Env) (rows : list Row) :
  forall st st', feed env st rows = Done st' ->
    let result :=
      identities (FORCE_DUPLICATES env) (importedIdMap st) (filter (accepted env) rows) in
    List.map t_imported_id (transactions st')
      = List.map t_imported_id (transactions st) ++ fst result /\
    importedIdMap st' = snd result.
Proof.
  induction rows as [|row rows IH]; intros st st' Hfeed; cbn [feed] in Hfeed.
  - injection Hfeed as <-. cbn. now rewrite app_nil_r.
  - destruct (on_data env st row) as [st1|] eqn:Hrow; [|discriminate].
    specialize (IH st1 st' Hfeed). apply on_data_runs_the_engine in Hrow.
    cbn [filter]. destruct (accepted env row).
    + destruct Hrow as (t & Hts & Hid & Hidx). cbn [identities].
      destruct (assign_identity (FORCE_DUPLICATES env) (importedIdMap st) row)
        as [id index'].
      cbn [fst snd] in *. rewrite Hidx in IH.
      destruct (identities (FORCE_DUPLICATES env) index' (filter (accepted env) rows))
        as [ids index''].
      cbn [fst snd] in *. destruct IH as [IH1 IH2]. split; [|assumption].
      rewrite IH1, Hts, map_app, <- app_assoc. cbn. now rewrite Hid.
    + destruct Hrow as [Hts Hidx]. now rewrite Hts, Hidx in IH.
Qed.
End Identity.

Section IdenticalRows.
Import Js Loader.

(** C5. Take the rows that reach the identity engine, in order, and a
    row that occurs N times among them, no other row of the input
    having its fingerprint.  Without the force flag each of the N
    occurrences gets the bare fingerprint; with it they get the
    fingerprint, then the fingerprint followed by -1, -2, ... up to
    -(N-1), in input order, and these N identities are pairwise
    distinct.  In both modes the index has one entry for the fingerprint,
    holding the N occurrences (the first and its N-1 duplicates) with the
    identities they got.  The engine has no failing outcome: whenever the
    handler reaches it, the handler completes with the index the engine
    returns. *)
Theorem identical_rows_identities (force : bool) (rows : list Row) (row : Row) :
  (forall other, In other rows -> fingerprint other = fingerprint row -> other = row) ->
  let hash := fingerprint row in
  let N := occurrences row rows in
  let ids := fst (identities force [] rows) in
  let index := snd (identities force [] rows) in
  ids_of row rows ids
    = (if force then List.map (suffixed hash) (seq 0 N) else repeat hash N) /\
  NoDup (List.map (suffixed hash) (seq 0 N)) /\
  NoDup (List.map fst index) /\
  List.length (entries_of hash index) = N /\
  List.map (map_get "imported_id") (entries_of hash index)
    = List.map Some (ids_of row rows ids) /\
  (forall (env : Env) (st : State) (r : Row) (entryType value : string),
      accepted env r = true ->
      map_get "Entry Type" r = Some entryType ->
      map_get "Value" r = Some value ->
      exists st',
        on_data env st r = Done st' /\
        importedIdMap st'
          = snd (assign_identity (FORCE_DUPLICATES env) (importedIdMap st) r)).
Proof.
  intros Hrows. cbv zeta.
  destruct (identities_gen force row rows Hrows [] ltac:(intros h; discriminate)
              ltac:(constructor))
    as (Hids & Hentries & _ & Hkeys).
  change (entries_of (fingerprint row) []) with (@nil Row) in Hids, Hentries.
  cbn [List.length List.map app] in Hids, Hentries.
  split; [exact Hids|]. split; [apply suffixed_NoDup|]. split; [exact Hkeys|].
  split; [|split; [exact Hentries|]].
  - apply (f_equal (@List.length _)) in Hentries.
    rewrite !length_map in Hentries. refine (eq_trans Hentries _). rewrite Hids.
    destruct force; [now rewrite length_map, length_seq | now rewrite repeat_length].
  - intros env st r entryType value Hacc Htype Hvalue.
    unfold accepted in Hacc. unfold on_data, parseDate.
    destruct (map_get "Date" r) as [dateString|]; [|discriminate].
    destruct (DateFns.parse dateString) as [date|]; [|discriminate].
    destruct (DateFns.isAfter date (today env)); [discriminate|].
    rewrite Htype, Hvalue. eexists. split; [reflexivity|].
    unfold accept. cbn [warn importedIdMap].
    now destruct (assign_identity (FORCE_DUPLICATES env) (importedIdMap st) r).
Qed.

Lemma identical_rows_witness :
  let rows := [Sample.row_expense; Sample.row_income; Sample.row_expense;
               Sample.row_expense_blank; Sample.row_expense] in
  let hash := "cef13d58feae9fab30e25a02e26162a0e7e3ad76b5296e18bafa6f1b9b7947f9" in
  (forall other, In other rows ->
     fingerprint other = fingerprint Sample.row_expense -> other = Sample.row_expense) /\
  ids_of Sample.row_expense rows (fst (identities true [] rows))
    = [hash; (hash ++ "-1")%string; (hash ++ "-2")%string] /\
  ids_of Sample.row_expense rows (fst (identities false [] rows))
    = [hash; hash; hash] /\
  exists st',
    on_data (Sample.loader true) initial Sample.row_expense = Done st' /\
    importedIdMap st' = snd (assign_identity true [] Sample.row_expense).
Proof.
  intros rows hash.
  assert (Hrows : forall other, In other rows ->
            fingerprint other = fingerprint Sample.row_expense ->
            other = Sample.row_expense).
  { intros other Hin.
    repeat (destruct Hin as [<-|Hin]; [try reflexivity; vm_compute; discriminate|]).
    destruct Hin. }
  split; [exact Hrows|]. split; [|split].
  - exact (proj1 (identical_rows_identities true rows Sample.row_expense Hrows)).
  - exact (proj1 (identical_rows_identities false rows Sample.row_expense Hrows)).
  - exact (proj2 (proj2 (proj2 (proj2 (proj2
             (identical_rows_identities true rows Sample.row_expense Hrows)))))
             (Sample.loader true) initial Sample.row_expense "Expense" "-12,34"
             eq_refl eq_refl eq_refl).
Defined.
End IdenticalRows.

(** ** Categories: one entity per name and kind *)

Section CategoryIdentity.
Import Js.

Lemma truthy_true (s : string) : truthy s = true <-> s <> "".
Proof. unfold truthy. destruct (String.eqb_spec s ""); simpl; split; congruence. Qed.

Lemma has_category_In (name : string) (is_income : bool) (set : list (string * bool)) :
  Loader.has_category name is_income set = true <-> In (name, is_income) set.
Proof.
  unfold Loader.has_category. rewrite existsb_exists. split.
  - intros ([n f] & Hin & Heq). apply andb_true_iff in Heq. destruct Heq as [Hn Hf].
    cbn [fst snd] in *. apply String.eqb_eq in Hn. apply Bool.eqb_prop in Hf. now subst.
  - intros Hin. exists (name, is_income). split; [assumption|].
    cbn [fst snd]. now rewrite String.eqb_refl, Bool.eqb_reflx.
Qed.

(** What one row does to the set of categories and to the transactions. *)
Lemma on_data_categories (env : Loader.Env) (st st' : Loader.State) (row : Row) :
  Loader.on_data env st row = Loader.Done st' ->
  (NoDup (Loader.categories st) -> NoDup (Loader.categories st')) /\
  incl (Loader.categories st) (Loader.categories st') /\
  (Loader.transactions st' = Loader.transactions st \/
   exists t, Loader.transactions st' = Loader.transactions st ++ [t] /\
             (t_category t <> "" ->
              In (t_category t, String.eqb (t_type t) "income") (Loader.categories st'))).
Proof.
  unfold Loader.on_data, Loader.parseDate.
  destruct (map_get "Date" row) as [dateString|];
    [|intros [= <-]; auto using incl_refl].
  destruct (DateFns.parse dateString) as [date|];
    [|intros [= <-]; cbn; auto using incl_refl].
  destruct (DateFns.isAfter date (Loader.today env));
    [intros [= <-]; cbn; auto using incl_refl|].
  destruct (map_get "Entry Type" row) as [entryType|]; [|discriminate].
  destruct (map_get "Value" row) as [value|]; [|discriminate].
  intros [= <-]. unfold Loader.accept.
  destruct (Loader.assign_identity _ _ row) as [id index'].
  cbn [Loader.categories Loader.transactions Loader.warn].
  set (name := Loader.cleanData env (map_get "Category" row)).
  set (is_income := String.eqb (Loader.toLowerCase env entryType) "income").
  destruct (truthy name) eqn:Hname; cbn [andb].
  - destruct (Loader.has_category name is_income (Loader.categories st)) eqn:Hhas;
      cbn [negb].
    + split; [auto|]. split; [apply incl_refl|]. right. eexists. split; [reflexivity|].
      cbn [t_category t_type]. intros _. now apply has_category_In.
    + split; [|split].
      * intros Hnd. apply NoDup_app; [assumption | repeat constructor; auto |].
        intros x Hx [<-|[]]. apply has_category_In in Hx. congruence.
      * apply incl_appl, incl_refl.
      * right. eexists. split; [reflexivity|]. cbn [t_category t_type]. intros _.
        apply in_or_app. right. now left.
  - split; [auto|]. split; [apply incl_refl|]. right. eexists. split; [reflexivity|].
    cbn [t_category t_type]. intros Hne. apply truthy_true in Hne.
    fold name in Hne. congruence.
Qed.

(** After the load, the set of categories has no repetition and holds
    the pair of name and income flag of every transaction that names a
    category. *)
Lemma feed_categories (env : Loader.Env) (rows : list Row) :
  forall st st', Loader.feed env st rows = Loader.Done st' ->
    (NoDup (Loader.categories st) -> NoDup (Loader.categories st')) /\
    incl (Loader.categories st) (Loader.categories st') /\
    forall t, In t (Loader.transactions st') ->
      In t (Loader.transactions st) \/
      (t_category t <> "" ->
       In (t_category t, String.eqb (t_type t) "income") (Loader.categories st')).
Proof.
  induction rows as [|row rows IH]; intros st st' Hfeed; cbn [Loader.feed] in Hfeed.
  - injection Hfeed as <-. auto using incl_refl.
  - destruct (Loader.on_data env st row) as [st1|] eqn:Hrow; [|discriminate].
    apply on_data_categories in Hrow. destruct Hrow as (Hnd1 & Hincl1 & Hts1).
    destruct (IH st1 st' Hfeed) as (Hnd & Hincl & Hts).
    split; [auto|]. split; [eapply incl_tran; eauto|].
    intros t Hin. destruct (Hts t Hin) as [Hold|Hnew]; [|now right].
    destruct Hts1 as [Heq|(t1 & Heq & Ht1)]; rewrite Heq in Hold; [now left|].
    apply in_app_or in Hold. destruct Hold as [Hold|[<-|[]]]; [now left|].
    right. intros Hne. apply Hincl, Ht1, Hne.
Qed.

Lemma length_append (a b : string) :
  String.length (a ++ b) = String.length a + String.length b.
Proof. induction a as [|x a IH]; simpl; [reflexivity | now rewrite IH]. Qed.

Lemma append_same_length (a b s t : string) :
  (a ++ s)%string = (b ++ t)%string -> String.length s = String.length t ->
  a = b /\ s = t.
Proof.
  revert b. induction a as [|x a IH]; intros [|y b]; cbn [String.append]; intros H Hlen.
  - now split.
  - exfalso. apply (f_equal String.length) in H. cbn [String.length] in H.
    rewrite length_append in H. lia.
  - exfalso. apply (f_equal String.length) in H. cbn [String.length] in H.
    rewrite length_append in H. lia.
  - injection H as -> H. destruct (IH b H Hlen) as [-> ->]. now split.
Qed.

Lemma append_split (a b s t : string) :
  (a ++ s)%string = (b ++ t)%string -> String.length b <= String.length a ->
  exists c, a = (b ++ c)%string /\ t = (c ++ s)%string.
Proof.
  revert a. induction b as [|y b IH]; intros a H Hlen; cbn [String.append] in *.
  - exists a. now split.
  - destruct a as [|x a]; cbn [String.length String.append] in *; [lia|].
    injection H as -> H. destruct (IH a H ltac:(lia)) as (c & -> & ->).
    now exists c.
Qed.

Lemma income_is_no_tail_of_expense (a b : string) :
  (a ++ "-income")%string <> (b ++ "-expense")%string.
Proof.
  intros H. pose proof (f_equal String.length H) as Hlen.
  rewrite !length_append in Hlen. cbn [String.length] in Hlen.
  destruct (append_split a b _ _ H ltac:(lia)) as (c & -> & Hc).
  rewrite length_append in Hlen.
  destruct c as [|x [|y c]]; cbn [String.length] in Hlen; try lia.
  discriminate.
Qed.

(** The string key names the pair: different pairs have different keys. *)
Lemma key_inj (name name' : string) (is_income is_income' : bool) :
  Categories.key name is_income = Categories.key name' is_income' ->
  name = name' /\ is_income = is_income'.
Proof.
  unfold Categories.key, Reconciler.category_key.
  destruct is_income, is_income'; cbn [Categories.kind_of]; intros H.
  - apply append_same_length in H; [|reflexivity]. now destruct H.
  - now apply income_is_no_tail_of_expense in H.
  - symmetry in H. now apply income_is_no_tail_of_expense in H.
  - apply append_same_length in H; [|reflexivity]. now destruct H.
Qed.
End CategoryIdentity.

Section CategoryResolution.
Import Js Categories.
Variable env : Env.
Variable importedGroupId : string.
Variable incomeGroupId : option string.

Lemma resolved_or_created_more (calls extra : list ApiCall)
    (name : string) (is_income : bool) (id : string) :
  resolved_or_created env calls name is_income id ->
  resolved_or_created env (calls ++ extra) name is_income id.
Proof.
  unfold resolved_or_created. destruct (find_category env name is_income); [auto|].
  intros (groupId & n & Hin & Hid). exists groupId, n. split; [|assumption].
  apply in_or_app. now left.
Qed.

Lemma import_one_spec (st st1 : State) (name : string) (is_income : bool) :
  import_one env importedGroupId incomeGroupId st (name, is_income) = Done st1 ->
  exists id,
    categoryIdMap st1 = map_set (key name is_income) id (categoryIdMap st) /\
    (exists extra, calls st1 = calls st ++ extra) /\
    resolved_or_created env (calls st1) name is_income id.
Proof.
  unfold import_one, resolved_or_created.
  destruct (find_category env name is_income) as [existing|].
  - intros [= <-]. exists (category_id existing). cbn [categoryIdMap calls].
    split; [reflexivity|]. split; [|reflexivity]. exists []. now rewrite app_nil_r.
  - destruct (if is_income then incomeGroupId else Some importedGroupId)
      as [groupId|]; [|discriminate].
    intros [= <-]. exists (created env (creations st)). cbn [categoryIdMap calls].
    split; [reflexivity|]. split; [now eexists|].
    exists groupId, (creations st). split; [|reflexivity].
    apply in_or_app. right. now left.
Qed.

Lemma import_each_spec (cats : list (string * bool)) :
  forall st st', NoDup cats ->
    import_each env importedGroupId incomeGroupId st cats = Done st' ->
    (exists extra, calls st' = calls st ++ extra) /\
    (forall k, (forall name is_income, In (name, is_income) cats ->
                                       key name is_income <> k) ->
               map_get k (categoryIdMap st') = map_get k (categoryIdMap st)) /\
    (forall name is_income, In (name, is_income) cats ->
       exists id, map_get (key name is_income) (categoryIdMap st') = Some id /\
                  resolved_or_created env (calls st') name is_income id).
Proof.
  induction cats as [|[name is_income] cats IH]; intros st st' Hnd Hrun;
    cbn [import_each] in Hrun.
  - injection Hrun as <-. split; [exists []; now rewrite app_nil_r|].
    split; [reflexivity | intros ? ? []].
  - destruct (import_one env importedGroupId incomeGroupId st (name, is_income))
      as [st1|] eqn:Hone; [|discriminate].
    apply import_one_spec in Hone. destruct Hone as (id & Hmap & [extra1 Hcalls1] & Hres).
    inversion Hnd as [|? ? Hnotin Hnd']; subst.
    destruct (IH st1 st' Hnd' Hrun) as ([extra Hcalls] & Hother & Hcats).
    split; [|split].
    + exists (extra1 ++ extra). now rewrite Hcalls, Hcalls1, app_assoc.
    + intros k Hk. rewrite Hother, Hmap.
      * apply map_get_set_other. apply Hk. now left.
      * intros n f Hin. apply Hk. now right.
    + intros n f [[= <- <-]|Hin]; [|now apply Hcats].
      exists id. split.
      * rewrite Hother, Hmap; [apply map_get_set_same|].
        intros n f Hin Heq. apply key_inj in Heq. destruct Heq as [-> ->].
        contradiction.
      * rewrite Hcalls. now apply resolved_or_created_more.
Qed.
End CategoryResolution.

Section CategoryTheorem.
Import Js.

Lemma importCategories_spec (env : Categories.Env) (cats : list (string * bool))
    (st : Categories.State) :
  NoDup cats ->
  Categories.importCategories env cats = Categories.Done st ->
  forall name is_income, In (name, is_income) cats ->
    exists id,
      map_get (Categories.key name is_income) (Categories.categoryIdMap st) = Some id /\
      Categories.resolved_or_created env (Categories.calls st) name is_income id.
Proof.
  unfold Categories.importCategories. intros Hnd Hrun.
  now apply import_each_spec in Hrun.
Qed.

(** A transaction that is no transfer, on an account that resolves,
    yields one posting whose category is looked up under the name and
    the kind of the transaction. *)
Lemma posting_category (env : Reconciler.Env)
    (accountIdMap categoryIdMap : list (string * string))
    (st : Reconciler.State) (t : Transaction) (acctId : string) :
  String.eqb (t_type t) "transfer" = false ->
  truthy_opt (map_get (t_acctName t) accountIdMap) = Some acctId ->
  exists posting,
    Reconciler.transactionsByAccount
      (snd (Reconciler.prepare env accountIdMap categoryIdMap st t))
    = map_push acctId posting
        (map_ensure acctId (Reconciler.transactionsByAccount st)) /\
    p_category posting
    = or_null (map_get (Reconciler.category_key (t_category t) (t_type t))
                       categoryIdMap).
Proof.
  intros Hkind Hacct. unfold Reconciler.prepare. rewrite Hacct, Hkind.
  eexists. split; reflexivity.
Qed.

(** C6. A category is the pair of its name and its income flag, the
    flag being whether the entry kind is "income".
    - After the load the set of categories has no repetition and holds
      the pair of every transaction that names a category: an income and
      an expense transaction with one category name give two entries.
    - The two entries are stored under two keys; each entry gets the
      identifier of the ledger category with its name and its flag or,
      when the ledger has none, the answer to a creating call made with
      its name and its flag.
    - The posting of an income or expense transaction takes its category
      from the key of its name and its kind. *)
Theorem category_is_name_and_kind :
  (forall (env : Loader.Env) (rows : list Row) (st : Loader.State),
      Loader.loadCSV env rows = Loader.Done st ->
      NoDup (Loader.categories st) /\
      forall t, In t (Loader.transactions st) -> t_category t <> "" ->
        In (t_category t, String.eqb (t_type t) "income") (Loader.categories st)) /\
  (forall name : string,
      Categories.key name true = Reconciler.category_key name "income" /\
      Categories.key name false = Reconciler.category_key name "expense" /\
      Categories.key name true <> Categories.key name false) /\
  (forall (env : Categories.Env) (cats : list (string * bool)) (st : Categories.State),
      NoDup cats ->
      Categories.importCategories env cats = Categories.Done st ->
      forall name is_income, In (name, is_income) cats ->
        exists id,
          map_get (Categories.key name is_income) (Categories.categoryIdMap st)
            = Some id /\
          Categories.resolved_or_created env (Categories.calls st) name is_income id) /\
  (forall (env : Reconciler.Env) (accountIdMap categoryIdMap : list (string * string))
          (st : Reconciler.State) (t : Transaction) (acctId : string),
      String.eqb (t_type t) "transfer" = false ->
      truthy_opt (map_get (t_acctName t) accountIdMap) = Some acctId ->
      exists posting,
        Reconciler.transactionsByAccount
          (snd (Reconciler.prepare env accountIdMap categoryIdMap st t))
        = map_push acctId posting
            (map_ensure acctId (Reconciler.transactionsByAccount st)) /\
        p_category posting
        = or_null (map_get (Reconciler.category_key (t_category t) (t_type t))
                           categoryIdMap)).
Proof.
  split; [|split; [|split]].
  - intros env rows st Hload. unfold Loader.loadCSV in Hload.
    apply feed_categories in Hload. destruct Hload as (Hnd & _ & Hts).
    split; [apply Hnd; constructor|].
    intros t Hin Hne. destruct (Hts t Hin) as [[]|H]. now apply H.
  - intros name. split; [reflexivity|]. split; [reflexivity|].
    intros H. apply key_inj in H. now destruct H.
  - exact importCategories_spec.
  - exact posting_category.
Qed.

Lemma category_witness :
  exists (loaded : Loader.State) (imported : Categories.State),
    Loader.loadCSV (Sample.loader false) [Sample.row_expense; Sample.row_income]
      = Loader.Done loaded /\
    NoDup (Loader.categories loaded) /\
    In ("Gifts", false) (Loader.categories loaded) /\
    In ("Gifts", true) (Loader.categories loaded) /\
    Categories.importCategories Sample.ledger (Loader.categories loaded)
      = Categories.Done imported /\
    map_get (Categories.key "Gifts" false) (Categories.categoryIdMap imported)
      = Some "cat-gifts-out" /\
    Categories.resolved_or_created Sample.ledger (Categories.calls imported)
      "Gifts" false "cat-gifts-out" /\
    map_get (Categories.key "Gifts" true) (Categories.categoryIdMap imported)
      = Some "new-1" /\
    Categories.resolved_or_created Sample.ledger (Categories.calls imported)
      "Gifts" true "new-1" /\
    exists posting,
      Reconciler.transactionsByAccount
        (snd (Reconciler.prepare Sample.env Sample.accountIdMap
                (Categories.categoryIdMap imported) Reconciler.initial Sample.income))
      = [("acct-giro", [posting])] /\
      p_category posting = Some "new-1".
Proof.
  destruct category_is_name_and_kind as (Hloader & _ & Himporter & Hposting).
  destruct (Loader.loadCSV (Sample.loader false) [Sample.row_expense; Sample.row_income])
    as [loaded|] eqn:Hload; [|vm_compute in Hload; discriminate].
  destruct (Hloader _ _ _ Hload) as [Hnd Hin].
  vm_compute in Hload. injection Hload as <-.
  cbn [Loader.categories Loader.transactions] in *.
  pose proof (Hin _ (or_introl eq_refl) ltac:(discriminate)) as Hout.
  pose proof (Hin _ (or_intror (or_introl eq_refl)) ltac:(discriminate)) as Hinc.
  cbn [t_category t_type] in Hout, Hinc.
  change (String.eqb "expense" "income") with false in Hout.
  change (String.eqb "income" "income") with true in Hinc.
  destruct (Categories.importCategories Sample.ledger [("Gifts", false); ("Gifts", true)])
    as [imported|] eqn:Himport; [|vm_compute in Himport; discriminate].
  destruct (Himporter _ _ _ Hnd Himport _ _ Hout) as (id_out & Hget_out & Hres_out).
  destruct (Himporter _ _ _ Hnd Himport _ _ Hinc) as (id_in & Hget_in & Hres_in).
  vm_compute in Himport. injection Himport as <-.
  assert (Hid_out : id_out = "cat-gifts-out")
    by (vm_compute in Hget_out; now injection Hget_out).
  assert (Hid_in : id_in = "new-1")
    by (vm_compute in Hget_in; now injection Hget_in).
  subst id_out id_in.
  eexists. eexists. repeat split; try eassumption; try reflexivity.
  destruct (Hposting Sample.env Sample.accountIdMap
              [("Gifts-expense", "cat-gifts-out"); ("Gifts-income", "new-1")]
              Reconciler.initial Sample.income "acct-giro" eq_refl eq_refl)
    as (posting & Hmap & Hcat).
  exists posting. split; [exact Hmap | exact Hcat].
Defined.

(** The sample, end to end: an expense and an income that both name the
    category Gifts are posted under two categories. *)
Example sample_categories_end_to_end :
  exists (loaded : Loader.State) (imported : Categories.State)
         (expense income : Posting),
    Loader.loadCSV (Sample.loader false) [Sample.row_expense; Sample.row_income]
      = Loader.Done loaded /\
    Loader.categories loaded = [("Gifts", false); ("Gifts", true)] /\
    Categories.importCategories Sample.ledger (Loader.categories loaded)
      = Categories.Done imported /\
    Categories.calls imported
      = [CreateCategoryGroup "Imported" false;
         CreateCategory "Gifts" "group-income" true] /\
    Reconciler.out_byAccount
      (Reconciler.importTransactions Sample.env (Loader.transactions loaded)
         Sample.accountIdMap (Categories.categoryIdMap imported))
      = [("acct-giro", [expense; income])] /\
    p_category expense = Some "cat-gifts-out" /\
    p_category income = Some "new-1".
Proof. do 4 eexists. vm_compute. repeat split. Qed.
End CategoryTheorem.

(** ** Dates written with two, two and four digits *)

Section CanonicalDates.
Import DateFns.
Local Open Scope Z_scope.

Lemma in_range (n x : Z) :
  0 <= x < n -> In x (List.map Z.of_nat (seq 0 (Z.to_nat n))).
Proof.
  intros Hx. apply in_map_iff. exists (Z.to_nat x). split; [lia|].
  apply in_seq. lia.
Qed.

Lemma two_digits_table :
  forallb (fun d =>
             match pad 2 d with
             | String a (String b EmptyString) =>
                 Number.is_digit a && Number.is_digit b &&
                 (10 * (Number.code a - 48) + (Number.code b - 48) =? d)
             | _ => false
             end)
          (List.map Z.of_nat (seq 0 (Z.to_nat 100))) = true.
Proof. vm_compute. reflexivity. Qed.

Lemma four_digits_table :
  forallb (fun y =>
             match pad 4 y with
             | String a (String b (String c (String d EmptyString))) =>
                 Number.is_digit a && Number.is_digit b &&
                 Number.is_digit c && Number.is_digit d &&
                 (10 * (10 * (10 * (Number.code a - 48) + (Number.code b - 48))
                        + (Number.code c - 48)) + (Number.code d - 48) =? y)
             | _ => false
             end)
          (List.map Z.of_nat (seq 0 (Z.to_nat 10000))) = true.
Proof. vm_compute. reflexivity. Qed.

Lemma number_two_digits (d : Z) (rest : string) :
  0 <= d <= 99 -> number 2 (pad 2 d ++ rest) = Some (d, rest).
Proof.
  intros Hd.
  pose proof (proj1 (forallb_forall _ _) two_digits_table d (in_range 100 d ltac:(lia))) as H.
  cbv beta in H.
  destruct (pad 2 d) as [|a [|b [|c s]]]; try discriminate.
  apply andb_true_iff in H. destruct H as [H Hv].
  apply andb_true_iff in H. destruct H as [Ha Hb].
  apply Z.eqb_eq in Hv.
  unfold number. cbn [String.append upto_digits]. rewrite Ha, Hb.
  replace (10 * (10 * 0 + (Number.code a - 48)) + (Number.code b - 48)) with d by lia.
  reflexivity.
Qed.

Lemma number_four_digits (y : Z) (rest : string) :
  0 <= y <= 9999 -> number 4 (pad 4 y ++ rest) = Some (y, rest).
Proof.
  intros Hy.
  pose proof (proj1 (forallb_forall _ _) four_digits_table y (in_range 10000 y ltac:(lia)))
    as H.
  cbv beta in H.
  destruct (pad 4 y) as [|a [|b [|c [|d [|e s]]]]]; try discriminate.
  apply andb_true_iff in H. destruct H as [H Hv].
  apply andb_true_iff in H. destruct H as [H Hd].
  apply andb_true_iff in H. destruct H as [H Hc].
  apply andb_true_iff in H. destruct H as [Ha Hb].
  apply Z.eqb_eq in Hv.
  unfold number. cbn [String.append upto_digits]. rewrite Ha, Hb, Hc, Hd.
  match goal with
  | |- Some (?v, _) = _ => replace v with y by lia
  end.
  reflexivity.
Qed.

(** A calendar date up to the year 9999, written as two digits of day,
    two of month and four of year with points between, parses to that
    date; its output is the same three groups of digits, year first, with
    hyphens between. *)
Lemma canonical_date_reordered (date : Date) :
  valid date = true -> year date <= 9999 ->
  parse (pad 2 (day date) ++ "." ++ pad 2 (month date) ++ "." ++ pad 4 (year date))
    = Some date /\
  format date
    = (pad 4 (year date) ++ "-" ++ pad 2 (month date) ++ "-" ++ pad 2 (day date))%string.
Proof.
  intros Hvalid Hyear. split; [|reflexivity].
  destruct date as [y m d]. cbn [year month day] in *.
  pose proof Hvalid as Hv. unfold valid in Hv. cbn [year month day] in Hv.
  repeat (apply andb_true_iff in Hv; destruct Hv as [Hv ?]).
  assert (Hdays : days_in_month y m <= 31).
  { unfold days_in_month.
    destruct (m =? 2); [destruct (leap y); lia|].
    destruct ((m =? 4) || (m =? 6) || (m =? 9) || (m =? 11)); lia. }
  unfold parse.
  rewrite number_two_digits by lia. cbn [point String.append].
  rewrite number_two_digits by lia. cbn [point String.append].
  rewrite <- (append_empty_r (pad 4 y)).
  rewrite number_four_digits by lia.
  change (only_whitespace "") with true. cbn [andb]. now rewrite Hvalid.
Qed.
End CanonicalDates.

(** ** Grouping by account *)

Section Grouping.
Import Js.
Variable env : Reconciler.Env.
Variables accountIdMap categoryIdMap : list (string * string).

Lemma account_name_found (name acctId : string) :
  In (name, acctId) accountIdMap ->
  Reconciler.account_name accountIdMap acctId <> None.
Proof.
  intros Hin. unfold Reconciler.account_name.
  destruct (find (fun e => String.eqb (snd e) acctId) accountIdMap) eqn:Hfind;
    [discriminate|].
  apply (find_none _ _ Hfind) in Hin. cbn [snd] in Hin.
  now rewrite String.eqb_refl in Hin.
Qed.

Lemma resolved_In (name acctId : string) :
  truthy_opt (map_get name accountIdMap) = Some acctId -> In (name, acctId) accountIdMap.
Proof.
  unfold truthy_opt. destruct (map_get name accountIdMap) as [id|] eqn:Hget; [|discriminate].
  destruct (truthy id); [|discriminate]. intros [= <-]. now apply map_get_In.
Qed.

Lemma grouped_ensure (acctId name : string) (byAccount : list (string * list Posting)) :
  In (name, acctId) accountIdMap ->
  Trace.grouped_by_account accountIdMap byAccount -> Trace.grouped_by_account accountIdMap (map_ensure acctId byAccount).
Proof.
  intros Hin [Hnd Hkeys]. destruct (keys_ensure acctId byAccount Hnd) as [Hnd' Hsub].
  split; [assumption|]. intros k Hk. destruct (Hsub k Hk) as [->|Hold]; eauto.
Qed.

Lemma grouped_push (acctId name : string) (posting : Posting)
    (byAccount : list (string * list Posting)) :
  In (name, acctId) accountIdMap ->
  Trace.grouped_by_account accountIdMap byAccount -> Trace.grouped_by_account accountIdMap (map_push acctId posting byAccount).
Proof.
  intros Hin [Hnd Hkeys]. destruct (keys_push acctId posting byAccount Hnd) as [Hnd' Hsub].
  split; [assumption|]. intros k Hk. destruct (Hsub k Hk) as [->|Hold]; eauto.
Qed.

Lemma prepare_grouped (st : Reconciler.State) (t : Transaction) :
  Trace.grouped_by_account accountIdMap (Reconciler.transactionsByAccount st) ->
  Trace.grouped_by_account accountIdMap
    (Reconciler.transactionsByAccount
       (snd (Reconciler.prepare env accountIdMap categoryIdMap st t))).
Proof.
  intros Hst. unfold Reconciler.prepare.
  destruct (truthy_opt (map_get (t_acctName t) accountIdMap)) as [acctId|] eqn:Hacct;
    [|exact Hst].
  apply resolved_In in Hacct.
  destruct (String.eqb (t_type t) "transfer").
  - destruct (truthy_opt (map_get (t_payee_name t) accountIdMap)) as [counterAcctId|]
      eqn:Hcounter.
    + apply resolved_In in Hcounter.
      destruct (truthy_opt (Reconciler.payee_of env counterAcctId)); cbn [snd
        Reconciler.transactionsByAccount];
        eauto using grouped_ensure, grouped_push.
    + cbn [snd Reconciler.transactionsByAccount]. eauto using grouped_ensure, grouped_push.
  - cbn [snd Reconciler.transactionsByAccount]. eauto using grouped_ensure, grouped_push.
Qed.

(** The postings of the newer revision are grouped by account. *)
Lemma prepare_all_grouped (ts : list Transaction) :
  forall st, Trace.grouped_by_account accountIdMap (Reconciler.transactionsByAccount st) ->
    Trace.grouped_by_account accountIdMap
      (Reconciler.transactionsByAccount
         (snd (Reconciler.prepare_all env accountIdMap categoryIdMap st ts))).
Proof.
  induction ts as [|t ts IH]; intros st Hst; cbn [Reconciler.prepare_all]; [exact Hst|].
  pose proof (prepare_grouped st t Hst) as Hstep.
  destruct (Reconciler.prepare env accountIdMap categoryIdMap st t) as [t' st'].
  specialize (IH st' Hstep).
  destruct (Reconciler.prepare_all env accountIdMap categoryIdMap st' ts) as [ts' st''].
  exact IH.
Qed.

Lemma importer_js_prepare_grouped (st : Reconciler.State) (t : Transaction) :
  Trace.grouped_by_account accountIdMap (Reconciler.transactionsByAccount st) ->
  Trace.grouped_by_account accountIdMap
    (Reconciler.transactionsByAccount (ImporterJs.prepare env accountIdMap categoryIdMap st t)).
Proof.
  intros Hst. unfold ImporterJs.prepare.
  destruct (truthy_opt (map_get (t_acctName t) accountIdMap)) as [acctId|] eqn:Hacct;
    [|exact Hst].
  apply resolved_In in Hacct.
  destruct (String.eqb (t_type t) "transfer").
  - destruct (truthy_opt (map_get (t_payee_name t) accountIdMap)) as [counterAcctId|].
    + destruct (truthy_opt (Reconciler.payee_of env counterAcctId));
        cbn [Reconciler.transactionsByAccount];
        eauto using grouped_ensure, grouped_push.
    + cbn [Reconciler.transactionsByAccount]. eauto using grouped_ensure.
  - cbn [Reconciler.transactionsByAccount]. eauto using grouped_ensure, grouped_push.
Qed.

(** [importer.js], the whole posting stage: the postings are grouped by
    account, every posting of every group is delivered once, in order, by a
    call for its account, and no call carries more than 1000 postings. *)
Lemma importer_js_groups_and_delivers (ts : list Transaction) :
  let '(byAccount, calls, _) :=
    ImporterJs.importTransactions env ts accountIdMap categoryIdMap in
  Trace.grouped_by_account accountIdMap byAccount /\
  Trace.delivered calls = Trace.tagged byAccount /\
  Forall (fun call => 1 <= List.length (snd call) <= 1000) (Trace.imported calls).
Proof.
  unfold ImporterJs.importTransactions.
  pose proof (importer_js_delivers_each_posting_once accountIdMap
                (Reconciler.transactionsByAccount
                   (ImporterJs.prepare_all env accountIdMap categoryIdMap ts))) as Hdeliver.
  destruct (ImporterJs.deliver accountIdMap _) as [calls lines].
  split; [|exact Hdeliver].
  clear Hdeliver calls lines. unfold ImporterJs.prepare_all.
  assert (Hinit : Trace.grouped_by_account accountIdMap (Reconciler.transactionsByAccount Reconciler.initial))
    by (split; [constructor | intros ? []]).
  revert Hinit. generalize Reconciler.initial.
  induction ts as [|t ts IH]; intros st Hst; cbn [fold_left]; [exact Hst|].
  apply IH, importer_js_prepare_grouped, Hst.
Qed.

(** The newer revision, the whole posting stage: the postings are grouped
    by account and all counted as imported, and no call hands any of them
    to the ledger. *)
Lemma newer_groups_and_delivers_nothing (ts : list Transaction) :
  let out := Reconciler.importTransactions env ts accountIdMap categoryIdMap in
  Trace.grouped_by_account accountIdMap (Reconciler.out_byAccount out) /\
  Reconciler.out_totalImported out = map_total (Reconciler.out_byAccount out) /\
  Trace.delivered (Reconciler.out_calls out) = [].
Proof.
  unfold Reconciler.importTransactions.
  pose proof (prepare_all_grouped ts Reconciler.initial
                ltac:(split; [constructor | intros ? []])) as Hgrouped.
  destruct (Reconciler.prepare_all env accountIdMap categoryIdMap Reconciler.initial ts)
    as [ts' st].
  pose proof (deliver_hands_over_nothing accountIdMap (Reconciler.transactionsByAccount st))
    as Hnone.
  pose proof (deliver_counts_every_posting accountIdMap
                (Reconciler.transactionsByAccount st)) as Htotal.
  destruct (Reconciler.deliver accountIdMap (Reconciler.transactionsByAccount st))
    as [[calls lines] total].
  cbn [Reconciler.out_byAccount Reconciler.out_calls Reconciler.out_totalImported
         fst snd] in *.
  split; [exact Hgrouped|]. split; [exact Htotal|].
  unfold Trace.delivered. now rewrite Hnone.
Qed.
End Grouping.
